(** * Real-Time Poll Rooms: vote admission, tally store and room fanout

    A shallow embedding of the server side of the poll application:
    - [utils/antiAbuse.js]   (address extraction, request validation),
    - [utils/pollGenerator.js] and [middleware/validation.js],
    - [database.js]          (the prepared statements and [dbHelpers]),
    - [routes/pollRoutes.js], [routes/voteRoutes.js] (the two POST handlers),
    - [server.js]            (the Socket.io handlers),
    followed by the properties of the specification, each settled against
    these definitions.

    Conventions of the embedding.
    - A JavaScript string is a [string]; one [ascii] stands for one code unit.
    - A finite JavaScript number is a canonical rational [Qc]; rounding of
      doubles is not modelled (every number used below is a small dyadic
      rational).  NaN and the infinities, which a JSON body cannot spell, are
      left out.
    - A JavaScript object used as a dictionary ([req.headers], [req.body]) is a
      [gmap] from property names; a missing property reads as [undefined].
    - [Date.now()] is an argument of the operation that reads the clock.
    - The SQLite file is the record [db]; a statement that can violate a
      constraint returns an [option]. *)

From stdpp Require Import gmap strings list fin_maps numbers pretty sorting.
From Stdlib Require Import Ascii QArith Qcanon.

Set Warnings "-register-all,-clear-no-such-hyp".
Open Scope Z_scope.

(* ===================================================================== *)
(** ** JavaScript values *)
(* ===================================================================== *)

Module JS.

(** The values a parsed JSON body can hold.  Objects are opaque: the code
    only ever asks for their type and truthiness. *)
Inductive value : Type :=
| Undefined
| Null
| Bool (b : bool)
| Num (n : Qc)
| Str (s : string)
| Arr (items : list value)
| Obj.

(** [!v] is [negb (truthy v)]. *)
Definition truthy (v : value) : bool :=
  match v with
  | Undefined | Null => false
  | Bool b => b
  | Num n => negb (bool_decide (n = 0%Qc))
  | Str s => negb (bool_decide (s = ""))
  | Arr _ | Obj => true
  end.

(** [typeof v === 'string'] and [typeof v === 'number']. *)
Definition is_string (v : value) : bool :=
  match v with Str _ => true | _ => false end.

Definition is_number (v : value) : bool :=
  match v with Num _ => true | _ => false end.

(** [a || b]. *)
Definition or (a b : value) : value := if truthy a then a else b.

(** Property read on a dictionary object. *)
Definition field (o : gmap string value) (k : string) : value :=
  default Undefined (o !! k).

(** Truthiness of a header or socket field that is a string or absent. *)
Definition present (o : option string) : bool :=
  match o with
  | Some s => negb (bool_decide (s = ""))
  | None => false
  end.

(** *** String primitives *)

(** White space removed by [String.prototype.trim], among the code units
    below 256: TAB, LF, VT, FF, CR, SPACE and NBSP. *)
Definition is_space (c : ascii) : bool :=
  let n := nat_of_ascii c in
  ((9 <=? n)%nat && (n <=? 13)%nat) || (n =? 32)%nat || (n =? 160)%nat.

Fixpoint trim_start (s : string) : string :=
  match s with
  | EmptyString => EmptyString
  | String c s' => if is_space c then trim_start s' else s
  end.

Definition trim (s : string) : string :=
  String.rev (trim_start (String.rev (trim_start s))).

(** [s.split(',')[0]]: the text before the first comma, all of [s] when it
    has none. *)
Fixpoint split_comma_head (s : string) : string :=
  match s with
  | EmptyString => EmptyString
  | String c s' =>
      if bool_decide (c = ","%char) then EmptyString
      else String c (split_comma_head s')
  end.

(** [s.replace(/c/g, by)] for a single character [c]. *)
Fixpoint replace_all (c : ascii) (by_ : string) (s : string) : string :=
  match s with
  | EmptyString => EmptyString
  | String d s' =>
      if bool_decide (d = c) then by_ +:+ replace_all c by_ s'
      else String d (replace_all c by_ s')
  end.

(** [s.substring(0, n)]. *)
Definition substring0 (n : nat) (s : string) : string := String.substring 0 n s.

End JS.

(* ===================================================================== *)
(** ** utils/antiAbuse.js *)
(* ===================================================================== *)

(** The parts of an Express request the server reads. *)
Record request : Type := Request {
  headers : gmap string string;
  connection_remoteAddress : option string;
  socket_remoteAddress : option string;
  params : gmap string JS.value;
  body : gmap string JS.value;
}.

(** [getClientIp(req)]. *)
Definition getClientIp (req : request) : string :=
  let forwarded := headers req !! "x-forwarded-for" in
  if JS.present forwarded then
    JS.trim (JS.split_comma_head (default "" forwarded))
  else if JS.present (headers req !! "x-real-ip") then
    default "" (headers req !! "x-real-ip")
  else if JS.present (connection_remoteAddress req) then
    default "" (connection_remoteAddress req)
  else if JS.present (socket_remoteAddress req) then
    default "" (socket_remoteAddress req)
  else "unknown".

(** Result of [validateVoteData]: [{ valid: false, error }] or
    [{ valid: true }].  The valid case carries the three fields at the types
    the checks have just established, for the typed code that follows. *)
Inductive vote_validation : Type :=
| VoteInvalid (error : string)
| VoteValid (pollId : string) (optionIndex : Qc) (fingerprint : string).

Definition validateVoteData (pollId optionIndex fingerprint : JS.value)
  : vote_validation :=
  match pollId with
  | JS.Str p =>
      if negb (JS.truthy pollId) then VoteInvalid "Invalid poll ID"
      else
        match optionIndex with
        | JS.Num n =>
            if bool_decide (n < 0)%Qc then VoteInvalid "Invalid option index"
            else
              match fingerprint with
              | JS.Str f =>
                  if negb (JS.truthy fingerprint)
                  then VoteInvalid "Invalid fingerprint"
                  else VoteValid p n f
              | _ => VoteInvalid "Invalid fingerprint"
              end
        | _ => VoteInvalid "Invalid option index"
        end
  | _ => VoteInvalid "Invalid poll ID"
  end.

(** [sanitizeInput(str)]; the five replacements run one after the other, as
    in the source. *)
Definition sanitizeInput (v : JS.value) : string :=
  match v with
  | JS.Str str =>
      let s1 := JS.replace_all "<"%char "&lt;" str in
      let s2 := JS.replace_all ">"%char "&gt;" s1 in
      let s3 := JS.replace_all (ascii_of_nat 34) "&quot;" s2 in
      let s4 := JS.replace_all "'"%char "&#x27;" s3 in
      let s5 := JS.replace_all "/"%char "&#x2F;" s4 in
      JS.substring0 500 (JS.trim s5)
  | _ => ""
  end.

(** Result of [validatePollData]. *)
Inductive poll_validation : Type :=
| PollInvalid (error : string)
| PollValid (question : string) (options : list string).

(** The [for] loop over the options: the first offending entry decides.
    [i] is the index of the head of [opts]. *)
Fixpoint validate_options (i : nat) (opts : list JS.value) : option string :=
  match opts with
  | [] => None
  | o :: rest =>
      match o with
      | JS.Str s =>
          if negb (JS.truthy o) || bool_decide (String.length (JS.trim s) = 0%nat)
          then Some ("Option " +:+ pretty (i + 1)%nat +:+ " is invalid")
          else if bool_decide (200 < String.length s)%nat
          then Some ("Option " +:+ pretty (i + 1)%nat
                     +:+ " is too long (max 200 characters)")
          else validate_options (S i) rest
      | _ => Some ("Option " +:+ pretty (i + 1)%nat +:+ " is invalid")
      end
  end.

Definition validatePollData (question options : JS.value) : poll_validation :=
  match question with
  | JS.Str q =>
      if negb (JS.truthy question) || bool_decide (String.length (JS.trim q) = 0%nat)
      then PollInvalid "Question is required"
      else if bool_decide (500 < String.length q)%nat
      then PollInvalid "Question is too long (max 500 characters)"
      else
        match options with
        | JS.Arr opts =>
            if bool_decide (length opts < 2)%nat
            then PollInvalid "At least 2 options are required"
            else if bool_decide (10 < length opts)%nat
            then PollInvalid "Maximum 10 options allowed"
            else
              match validate_options 0 opts with
              | Some e => PollInvalid e
              | None =>
                  PollValid (sanitizeInput question) (sanitizeInput <$> opts)
              end
        | _ => PollInvalid "Options must be an array"
        end
  | _ => PollInvalid "Question is required"
  end.

(** [RATE_LIMITS]. *)
Definition VOTES_PER_IP_PER_POLL : Z := 1.
Definition VOTE_RATE_WINDOW_MS : Z := 5 * 60 * 1000.
Definition POLLS_PER_IP_PER_HOUR : Z := 10.

(* ===================================================================== *)
(** ** utils/pollGenerator.js and middleware/validation.js *)
(* ===================================================================== *)

Definition alphabet : string :=
  "123456789ABCDEFGHJKLMNPQRSTUVWXYZabcdefghijkmnopqrstuvwxyz".

Fixpoint string_mem (c : ascii) (s : string) : bool :=
  match s with
  | EmptyString => false
  | String d s' => bool_decide (c = d) || string_mem c s'
  end.

Fixpoint string_forall (p : ascii -> bool) (s : string) : bool :=
  match s with
  | EmptyString => true
  | String c s' => p c && string_forall p s'
  end.

(** [isValidPollId(pollId)]: a string of length 8 over [alphabet]. *)
Definition isValidPollId (pollId : JS.value) : bool :=
  match pollId with
  | JS.Str s =>
      if negb (JS.truthy pollId) then false
      else if negb (bool_decide (String.length s = 8%nat)) then false
      else string_forall (fun c => string_mem c alphabet) s
  | _ => false
  end.

(* ===================================================================== *)
(** ** database.js: schema and prepared statements *)
(* ===================================================================== *)

(** A row of [polls]; the primary key [id] is the key of the map below.
    [options] is stored as JSON text and parsed back on every read; for a list
    of strings the round trip is the identity, so the list itself is kept. *)
Record poll_row : Type := PollRow {
  question : string;
  options : list string;
  created_at : Z;
  vote_count : Z;
}.

(** A row of [votes].  [option_index] has INTEGER affinity: a bound number
    that is integral is stored as that integer, any other number is stored as
    the REAL it is, so the column holds the number that was bound. *)
Record vote_row : Type := VoteRow {
  vote_id : Z;
  poll_id : string;
  option_index : Qc;
  ip_address : string;
  fingerprint : string;
  voted_at : Z;
}.

Record db : Type := Db {
  polls : gmap string poll_row;
  votes : list vote_row;
}.

Definition empty_db : db := Db ∅ [].

(** Names of the prepared statements, for the trace of executed statements. *)
Inductive statement : Type :=
| StCreatePoll
| StGetPoll
| StUpdateVoteCount
| StCreateVote
| StGetVotesByPoll
| StCheckVoteByIP
| StCheckVoteByFingerprint
| StGetRecentVotesByIP.

Module statements.

(** [INSERT INTO polls (id, question, options, created_at)]; [vote_count]
    takes its default 0.  [None]: the PRIMARY KEY constraint fails. *)
Definition createPoll (id q : string) (opts : list string) (createdAt : Z)
    (d : db) : option db :=
  match polls d !! id with
  | Some _ => None
  | None => Some (Db (<[id := PollRow q opts createdAt 0]> (polls d)) (votes d))
  end.

(** [SELECT * FROM polls WHERE id = ?]. *)
Definition getPoll (id : string) (d : db) : option poll_row := polls d !! id.

(** [UPDATE polls SET vote_count = vote_count + 1 WHERE id = ?]. *)
Definition updateVoteCount (id : string) (d : db) : db :=
  Db (alter (λ r, PollRow (question r) (options r) (created_at r)
                          (vote_count r + 1)) id (polls d))
     (votes d).

(** [INSERT INTO votes (poll_id, option_index, ip_address, fingerprint,
    voted_at)].  The row id is AUTOINCREMENT and rows are never deleted.
    [None]: the FOREIGN KEY on [poll_id] fails (better-sqlite3 enforces
    foreign keys). *)
Definition createVote (pollId : string) (optionIndex : Qc)
    (ipAddress fp : string) (votedAt : Z) (d : db) : option db :=
  match polls d !! pollId with
  | None => None
  | Some _ =>
      let row := VoteRow (Z.of_nat (length (votes d)) + 1)
                         pollId optionIndex ipAddress fp votedAt in
      Some (Db (polls d) (votes d ++ [row]))
  end.

(** Rows of [votes] with [poll_id = ?]. *)
Definition votes_of (pollId : string) (d : db) : list vote_row :=
  filter (λ v, poll_id v = pollId) (votes d).

(** [SELECT option_index, COUNT( * ) FROM votes WHERE poll_id = ? GROUP BY
    option_index]: one row per distinct index with the number of its votes
    (SQL fixes no order of the groups). *)
Definition getVotesByPoll (pollId : string) (d : db) : list (Qc * Z) :=
  let rows := votes_of pollId d in
  (λ k, (k, Z.of_nat (length (filter (λ v, option_index v = k) rows))))
    <$> remove_dups (option_index <$> rows).

(** [SELECT COUNT( * ) FROM votes WHERE poll_id = ? AND ip_address = ?]. *)
Definition checkVoteByIP (pollId ipAddress : string) (d : db) : Z :=
  Z.of_nat (length (filter (λ v, ip_address v = ipAddress) (votes_of pollId d))).

(** [... WHERE poll_id = ? AND fingerprint = ?]. *)
Definition checkVoteByFingerprint (pollId fp : string) (d : db) : Z :=
  Z.of_nat (length (filter (λ v, fingerprint v = fp) (votes_of pollId d))).

(** [... WHERE poll_id = ? AND ip_address = ? AND voted_at > ?]. *)
Definition getRecentVotesByIP (pollId ipAddress : string) (cutoff : Z)
    (d : db) : Z :=
  Z.of_nat (length (filter (λ v, ip_address v = ipAddress ∧ cutoff < voted_at v)
                           (votes_of pollId d))).

End statements.

(* ===================================================================== *)
(** ** The server state and its effects *)
(* ===================================================================== *)

(** A JavaScript array of counts.  [elems] are the indexed elements, the only
    part [map], [reduce] and [JSON.stringify] see; [props] are the properties
    set under a key that is not an array index. *)
Record js_array : Type := JsArray {
  elems : list Z;
  props : list (Qc * Z);
}.

(** The two events the server emits. *)
Inductive socket_event : Type :=
| PollDataEv (id q : string) (opts : list string) (results : list Z)
             (totalVotes : Z)
| PollUpdatedEv (results : list Z) (totalVotes : Z).

(** One event handed to one connection. *)
Record delivery : Type := Delivery {
  to_socket : nat;
  event : socket_event;
}.

(** Everything the handlers read or write: the database, the Socket.io rooms
    (room name to member socket ids), the events emitted so far, and the
    statements executed so far. *)
Record world : Type := World {
  store : db;
  rooms : gmap string (gset nat);
  outbox : list delivery;
  trace : list statement;
}.

Definition initial_world : world := World empty_db ∅ [] [].

(** Handlers are state transformers over [world]. *)
Definition M (A : Type) : Type := world → A * world.

#[global] Instance M_ret : MRet M := λ A (a : A) w, (a, w).
#[global] Instance M_bind : MBind M :=
  λ A B (k : A → M B) (m : M A) w, let '(a, w') := m w in k a w'.

(** Run a reading statement. *)
Definition query {A : Type} (s : statement) (f : db → A) : M A :=
  λ w, (f (store w), World (store w) (rooms w) (outbox w) (trace w ++ [s])).

(** Run a writing statement; [false] when it throws, the store untouched. *)
Definition run (s : statement) (f : db → option db) : M bool :=
  λ w, match f (store w) with
       | Some d => (true, World d (rooms w) (outbox w) (trace w ++ [s]))
       | None => (false, World (store w) (rooms w) (outbox w) (trace w ++ [s]))
       end.

(** [db.transaction(fn)()]: when [fn] throws the store is rolled back. *)
Definition transaction (fn : M bool) : M bool :=
  λ w, let '(ok, w') := fn w in
       if ok then (true, w')
       else (false, World (store w) (rooms w') (outbox w') (trace w')).

(** [socket.join(room)], [socket.leave(room)]. *)
Definition members (room : string) (w : world) : gset nat :=
  default ∅ (rooms w !! room).

Definition socket_join (sid : nat) (room : string) : M unit :=
  λ w, (tt, World (store w) (<[room := {[sid]} ∪ members room w]> (rooms w))
                  (outbox w) (trace w)).

Definition socket_leave (sid : nat) (room : string) : M unit :=
  λ w, (tt, World (store w) (<[room := members room w ∖ {[sid]}]> (rooms w))
                  (outbox w) (trace w)).

(** [socket.emit(ev)]: to that connection only. *)
Definition socket_emit (sid : nat) (ev : socket_event) : M unit :=
  λ w, (tt, World (store w) (rooms w) (outbox w ++ [Delivery sid ev]) (trace w)).

(** [io.to(room).emit(ev)]: to every connection in the room now. *)
Definition io_to_emit (room : string) (ev : socket_event) : M unit :=
  λ w, (tt, World (store w) (rooms w)
                  (outbox w ++ ((λ sid, Delivery sid ev) <$> elements (members room w)))
                  (trace w)).

(* ===================================================================== *)
(** ** database.js: dbHelpers *)
(* ===================================================================== *)

(** The object [getPoll] returns: the row plus [results]. *)
Record poll : Type := Poll {
  p_id : string;
  p_question : string;
  p_options : list string;
  p_created_at : Z;
  p_vote_count : Z;
  p_results : js_array;
}.

(** [k] is an array index: a non-negative integer. *)
Definition is_array_index (k : Qc) : bool :=
  bool_decide (Qden (this k) = 1%positive) && bool_decide (0 ≤ Qnum (this k)).

(** [a[k] = v] for a number [k] below [a.length], the only case [getPoll]
    reaches: an array index overwrites that element, any other key becomes a
    property and leaves the elements and the length alone. *)
Definition array_assign (a : js_array) (k : Qc) (v : Z) : js_array :=
  if is_array_index k
  then JsArray (<[Z.to_nat (Qnum (this k)) := v]> (elems a)) (props a)
  else JsArray (elems a) (props a ++ [(k, v)]).

(** [results.reduce((a, b) => a + b, 0)]. *)
Definition sum_results (l : list Z) : Z := foldl Z.add 0 l.

Module dbHelpers.

(** [createPoll(pollData)]; [None] when the insert throws. *)
Definition createPoll (id q : string) (opts : list string) (now : Z)
  : M (option (string * string * list string)) :=
  ok ← run StCreatePoll (statements.createPoll id q opts now);
  mret (if ok : bool then Some (id, q, opts) else None).

(** The body of [votes.forEach] in [getPoll]. *)
Definition tally_step (a : js_array) (vote : Qc * Z) : js_array :=
  if bool_decide (vote.1 < Qc_of_Z (Z.of_nat (length (elems a))))%Qc
  then array_assign a vote.1 vote.2
  else a.

(** [getPoll(pollId)]. *)
Definition getPoll (pollId : string) : M (option poll) :=
  row ← query StGetPoll (statements.getPoll pollId);
  match row with
  | None => mret None
  | Some r =>
      votes ← query StGetVotesByPoll (statements.getVotesByPoll pollId);
      let zeros := JsArray ((λ _, 0) <$> options r) [] in
      mret (Some (Poll pollId (question r) (options r) (created_at r)
                       (vote_count r) (foldl tally_step zeros votes)))
  end.

(** [addVote(voteData)]; [false] when the transaction throws. *)
Definition addVote (pollId : string) (optionIndex : Qc)
    (ipAddress fp : string) (now : Z) : M bool :=
  transaction (
    ok ← run StCreateVote
             (statements.createVote pollId optionIndex ipAddress fp now);
    if ok : bool
    then run StUpdateVoteCount (λ d, Some (statements.updateVoteCount pollId d))
    else mret false).

Definition hasVotedByIP (pollId ipAddress : string) : M bool :=
  count ← query StCheckVoteByIP (statements.checkVoteByIP pollId ipAddress);
  mret (bool_decide (0 < count)).

Definition hasVotedByFingerprint (pollId fp : string) : M bool :=
  count ← query StCheckVoteByFingerprint
                (statements.checkVoteByFingerprint pollId fp);
  mret (bool_decide (0 < count)).

(** [getRecentVoteCount(pollId, ipAddress, timeWindowMs)]; [now] is what
    [Date.now()] returns inside it. *)
Definition getRecentVoteCount (pollId ipAddress : string) (timeWindowMs now : Z)
  : M Z :=
  let cutoffTime := now - timeWindowMs in
  query StGetRecentVotesByIP
        (statements.getRecentVotesByIP pollId ipAddress cutoffTime).

End dbHelpers.

(* ===================================================================== *)
(** ** HTTP responses and middleware *)
(* ===================================================================== *)

(** The JSON bodies the two routes send. *)
Inductive response_body : Type :=
| ErrorBody (error : string)
| VoteRecorded (results : list Z) (totalVotes : Z)
| PollCreated (id q : string) (opts : list string) (shareUrl : string).

Record response : Type := Response {
  status : nat;
  payload : response_body;
}.

(** A middleware answers ([Some]) or calls [next()] ([None]). *)
Definition requireBody (req : request) : option response :=
  if bool_decide (size (body req) = 0%nat)
  then Some (Response 400 (ErrorBody "Request body is required"))
  else None.

Definition validatePollId (req : request) : option response :=
  let pollId := JS.or (JS.field (params req) "pollId")
                      (JS.field (body req) "pollId") in
  if negb (JS.truthy pollId)
  then Some (Response 400 (ErrorBody "Poll ID is required"))
  else if negb (isValidPollId pollId)
  then Some (Response 400 (ErrorBody "Invalid poll ID format"))
  else None.

(** The limiters of [middleware/rateLimit.js] are instances of the
    express-rate-limit package, whose counters live outside this repository;
    a route takes the limiter's verdict on the request as an argument. *)
Definition voteLimiter (limited : bool) : option response :=
  if limited
  then Some (Response 429 (ErrorBody "Too many vote attempts. Please slow down."))
  else None.

Definition createPollLimiter (limited : bool) : option response :=
  if limited
  then Some (Response 429
               (ErrorBody "Too many polls created. Please try again later."))
  else None.

(* ===================================================================== *)
(** ** routes/voteRoutes.js: POST /api/votes *)
(* ===================================================================== *)

Definition reply (code : nat) (error : string) : M response :=
  mret (Response code (ErrorBody error)).

(** The route handler.  [tWindow] and [tCommit] are the clock readings of
    [getRecentVoteCount] and of [addVote].  The [catch] of the handler turns
    an exception into status 500. *)
Definition post_votes_handler (tWindow tCommit : Z) (req : request)
  : M response :=
  match validateVoteData (JS.field (body req) "pollId")
                         (JS.field (body req) "optionIndex")
                         (JS.field (body req) "fingerprint") with
  | VoteInvalid error => reply 400 error
  | VoteValid pollId optionIndex fp =>
      let ipAddress := getClientIp req in
      poll ← dbHelpers.getPoll pollId;
      match poll with
      | None => reply 404 "Poll not found"
      | Some poll =>
          if bool_decide (Qc_of_Z (Z.of_nat (length (p_options poll)))
                          ≤ optionIndex)%Qc
          then reply 400 "Invalid option index"
          else
            hasVotedIP ← dbHelpers.hasVotedByIP pollId ipAddress;
            if hasVotedIP : bool
            then reply 403 "You have already voted in this poll"
            else
              hasVotedFingerprint ← dbHelpers.hasVotedByFingerprint pollId fp;
              if hasVotedFingerprint : bool
              then reply 403 "You have already voted in this poll"
              else
                recentVotes ← dbHelpers.getRecentVoteCount
                                 pollId ipAddress VOTE_RATE_WINDOW_MS tWindow;
                if bool_decide (VOTES_PER_IP_PER_POLL ≤ recentVotes)
                then reply 429 "Too many votes. Please wait before voting again."
                else
                  ok ← dbHelpers.addVote pollId optionIndex ipAddress fp tCommit;
                  if negb ok then reply 500 "Failed to submit vote"
                  else
                    updatedPoll ← dbHelpers.getPoll pollId;
                    match updatedPoll with
                    | None => reply 500 "Failed to submit vote"
                    | Some updatedPoll =>
                        let results := elems (p_results updatedPoll) in
                        mret (Response 200
                                (VoteRecorded results (sum_results results)))
                    end
      end
  end.

(** [router.post('/', voteLimiter, requireBody, validatePollId, handler)]. *)
Definition post_votes (limited : bool) (tWindow tCommit : Z) (req : request)
  : M response :=
  match voteLimiter limited with
  | Some r => mret r
  | None =>
      match requireBody req with
      | Some r => mret r
      | None =>
          match validatePollId req with
          | Some r => mret r
          | None => post_votes_handler tWindow tCommit req
          end
      end
  end.

(* ===================================================================== *)
(** ** routes/pollRoutes.js: POST /api/polls *)
(* ===================================================================== *)

(** [generated] is what [generatePollId()] returns, [now] the clock reading
    of [createPoll]. *)
Definition post_polls_handler (generated : string) (now : Z) (req : request)
  : M response :=
  match validatePollData (JS.field (body req) "question")
                         (JS.field (body req) "options") with
  | PollInvalid error => reply 400 error
  | PollValid q opts =>
      created ← dbHelpers.createPoll generated q opts now;
      match created with
      | None => reply 500 "Failed to create poll"
      | Some (id, q', opts') =>
          mret (Response 201 (PollCreated id q' opts' ("/poll/" +:+ id)))
      end
  end.

(** [router.post('/', createPollLimiter, requireBody, handler)]. *)
Definition post_polls (limited : bool) (generated : string) (now : Z)
    (req : request) : M response :=
  match createPollLimiter limited with
  | Some r => mret r
  | None =>
      match requireBody req with
      | Some r => mret r
      | None => post_polls_handler generated now req
      end
  end.

(* ===================================================================== *)
(** ** server.js: Socket.io handlers *)
(* ===================================================================== *)

(** The handlers of one connection [sid].  The [pollId] a client sends is a
    string (client/scripts/socket-client.js); [None] is a missing argument,
    which like the empty string is falsy. *)
Definition room_of (pollId : string) : string := "poll-" +:+ pollId.

Definition on_join_poll (sid : nat) (pollId : option string) : M unit :=
  if negb (JS.present pollId) then mret tt
  else
    let id := default "" pollId in
    _ ← socket_join sid (room_of id);
    poll ← dbHelpers.getPoll id;
    match poll with
    | Some poll =>
        let results := elems (p_results poll) in
        socket_emit sid (PollDataEv (p_id poll) (p_question poll)
                           (p_options poll) results (sum_results results))
    | None => mret tt
    end.

(** [data] is the object [{ pollId }] the client sends. *)
Definition on_vote_submitted (sid : nat) (pollId : option string) : M unit :=
  if negb (JS.present pollId) then mret tt
  else
    let id := default "" pollId in
    poll ← dbHelpers.getPoll id;
    match poll with
    | Some poll =>
        let results := elems (p_results poll) in
        io_to_emit (room_of id) (PollUpdatedEv results (sum_results results))
    | None => mret tt
    end.

Definition on_leave_poll (sid : nat) (pollId : option string) : M unit :=
  if negb (JS.present pollId) then mret tt
  else socket_leave sid (room_of (default "" pollId)).

(** On disconnect Socket.io takes the connection out of every room; the
    handler itself only logs. *)
Definition on_disconnect (sid : nat) : M unit :=
  λ w, (tt, World (store w) ((λ s : gset nat, s ∖ {[sid]}) <$> rooms w)
                  (outbox w) (trace w)).

(* ===================================================================== *)
(** ** Runs of the server *)
(* ===================================================================== *)

(** What the outside world can make the server do. *)
Inductive input : Type :=
| PostPolls (limited : bool) (generated : string) (now : Z) (req : request)
| PostVotes (limited : bool) (tWindow tCommit : Z) (req : request)
| JoinPoll (sid : nat) (pollId : option string)
| VoteSubmitted (sid : nat) (pollId : option string)
| LeavePoll (sid : nat) (pollId : option string)
| Disconnect (sid : nat).

Definition handle (i : input) (w : world) : world :=
  match i with
  | PostPolls limited generated now req =>
      (post_polls limited generated now req w).2
  | PostVotes limited tWindow tCommit req =>
      (post_votes limited tWindow tCommit req w).2
  | JoinPoll sid pollId => (on_join_poll sid pollId w).2
  | VoteSubmitted sid pollId => (on_vote_submitted sid pollId w).2
  | LeavePoll sid pollId => (on_leave_poll sid pollId w).2
  | Disconnect sid => (on_disconnect sid w).2
  end.

(** The states of the server: those some sequence of inputs leads to, handled
    one after the other from the empty database.  Each handler runs to its
    end before the next input is taken (none of them awaits), clock readings
    are arbitrary, and [generated] ranges over all strings although
    [generatePollId] only returns ids [isValidPollId] accepts. *)
Inductive reachable : world → Prop :=
| reachable_init : reachable initial_world
| reachable_step i w : reachable w → reachable (handle i w).

(** The tally [getPoll] reports for a poll in a given database. *)
Definition tally (d : db) (pollId : string) : option (list Z) :=
  (λ p, elems (p_results p)) <$> (dbHelpers.getPoll pollId (World d ∅ [] [])).1.

(** A small scenario used by the examples: a two-option poll. *)
Definition red_blue : db :=
  Db {[ "ABCDEFGH" := PollRow "Colour?" ["Red"; "Blue"] 1000 0 ]} [].

Definition vote_request (ip : string) (pollId : string) (optionIndex : Qc)
    (fp : string) : request :=
  Request {[ "x-forwarded-for" := ip ]} None None ∅
          {[ "pollId" := JS.Str pollId;
             "optionIndex" := JS.Num optionIndex;
             "fingerprint" := JS.Str fp ]}.

Definition poll_request (q : string) (opts : list string) : request :=
  Request ∅ (Some "10.0.0.9") None ∅
          {[ "question" := JS.Str q; "options" := JS.Arr (JS.Str <$> opts) ]}.

(* ===================================================================== *)
(** ** routes/pollRoutes.js: GET /api/polls/:pollId and GET /api/polls *)
(* ===================================================================== *)

(** [SELECT id, question, created_at, vote_count FROM polls ORDER BY
    created_at DESC LIMIT 100].  SQL leaves the order of rows with equal
    [created_at] open; here they keep the order of the table scan. *)
Definition created_not_before (a b : string * poll_row) : Prop :=
  created_at b.2 ≤ created_at a.2.

#[global] Instance created_not_before_dec : RelDecision created_not_before :=
  λ a b, decide (created_at b.2 ≤ created_at a.2).

Definition getAllPolls_statement (d : db) : list (string * poll_row) :=
  take 100 (merge_sort created_not_before (map_to_list (polls d))).

(** [dbHelpers.getAllPolls()].  The trace type lists the statements of the
    vote and creation paths only, so this read is not put on the trace. *)
Definition getAllPolls : M (list (string * poll_row)) :=
  λ w, (getAllPolls_statement (store w), w).

(** The JSON bodies of the two GET routes. *)
Record poll_view : Type := PollView {
  v_id : string;
  v_question : string;
  v_options : list string;
  v_results : list Z;
  v_totalVotes : Z;
  v_createdAt : Z;
}.

Record poll_summary : Type := PollSummary {
  s_id : string;
  s_question : string;
  s_voteCount : Z;
  s_createdAt : Z;
}.

Inductive get_body : Type :=
| GetError (error : string)
| GetPollBody (view : poll_view)
| GetPollsBody (summaries : list poll_summary).

Record get_response : Type := GetResponse {
  g_status : nat;
  g_payload : get_body;
}.

Definition getPollLimiter (limited : bool) : option get_response :=
  if limited
  then Some (GetResponse 429
               (GetError "Too many requests. Please try again later."))
  else None.

(** [validatePollId] in front of a GET route: the same checks, answered on
    the GET response type. *)
Definition validatePollId_get (req : request) : option get_response :=
  match validatePollId req with
  | Some r =>
      Some (GetResponse (status r)
              (GetError match payload r with
                        | ErrorBody e => e
                        | _ => ""
                        end))
  | None => None
  end.

(** The handler of [GET /:pollId].  Express binds [req.params.pollId] to the
    matched path segment, a string; binding anything else to the statement
    throws, which the [catch] answers with status 500. *)
Definition get_poll_handler (req : request) : M get_response :=
  match JS.field (params req) "pollId" with
  | JS.Str pollId =>
      poll ← dbHelpers.getPoll pollId;
      match poll with
      | None => mret (GetResponse 404 (GetError "Poll not found"))
      | Some poll =>
          let results := elems (p_results poll) in
          mret (GetResponse 200
                  (GetPollBody (PollView (p_id poll) (p_question poll)
                                  (p_options poll) results
                                  (sum_results results) (p_created_at poll))))
      end
  | _ => mret (GetResponse 500 (GetError "Failed to get poll"))
  end.

(** [router.get('/:pollId', getPollLimiter, validatePollId, handler)]. *)
Definition get_poll (limited : bool) (req : request) : M get_response :=
  match getPollLimiter limited with
  | Some r => mret r
  | None =>
      match validatePollId_get req with
      | Some r => mret r
      | None => get_poll_handler req
      end
  end.

(** [router.get('/', getPollLimiter, handler)]. *)
Definition get_polls (limited : bool) : M get_response :=
  match getPollLimiter limited with
  | Some r => mret r
  | None =>
      polls ← getAllPolls;
      mret (GetResponse 200
              (GetPollsBody
                 ((λ p : string * poll_row,
                     PollSummary p.1 (question p.2) (vote_count p.2)
                                 (created_at p.2)) <$> polls)))
  end.

(* ===================================================================== *)
(** ** client/scripts/create.js: the option list of the creation form *)
(* ===================================================================== *)

Module CreateForm.

(** [let options = ['', '']].  An entry of the array is a string or a hole
    ([None]): an assignment past the end of a JavaScript array leaves holes
    behind, which [forEach] and [filter] pass over and [length] counts. *)
Definition initial_options : list (option string) := [Some ""; Some ""].

Definition addOption (options : list (option string)) : list (option string) :=
  if bool_decide (10 ≤ length options)%nat then options
  else options ++ [Some ""].

(** [options[index] = value]: below the length the entry is overwritten; at
    or past it the array grows to [index + 1] entries, with holes between the
    old end and the new entry. *)
Definition updateOption (index : nat) (value : string)
    (options : list (option string)) : list (option string) :=
  if bool_decide (index < length options)%nat
  then <[index := Some value]> options
  else options ++ replicate (index - length options) None ++ [Some value].

(** [options.splice(index, 1)] behind the guard on the length; at or past the
    end [splice] removes nothing. *)
Definition removeOption (index : nat) (options : list (option string))
  : list (option string) :=
  if bool_decide (length options ≤ 2)%nat then options
  else delete index options.

(** The rows [renderOptions] draws: its [forEach] visits the entries that are
    not holes. *)
Definition rendered (index : nat) (options : list (option string)) : bool :=
  match options !! index with
  | Some (Some _) => true
  | _ => false
  end.

(** What the user can do to the list: the add button, the remove button of a
    row and typing into the input of a row.  Buttons and inputs exist for the
    rendered rows only; [renderOptions] draws the remove buttons only while
    there are more than two rows. *)
Inductive form_event : Type :=
| ClickAdd
| ClickRemove (index : nat)
| InputOption (index : nat) (value : string).

Definition fire (options : list (option string)) (ev : form_event)
  : list (option string) :=
  match ev with
  | ClickAdd => addOption options
  | ClickRemove index =>
      if rendered index options && bool_decide (2 < length options)%nat
      then removeOption index options
      else options
  | InputOption index value =>
      if rendered index options
      then updateOption index value options
      else options
  end.

(** [handleSubmit]: an alert, or the question and options it posts to
    [/api/polls]. *)
Inductive submission : Type :=
| Alert (message : string)
| Posted (question : string) (validOptions : list string).

Definition handleSubmit (questionInput : string)
    (options : list (option string)) : submission :=
  let question := JS.trim questionInput in
  let validOptions := filter (λ opt, JS.trim opt ≠ "") (omap id options) in
  if bool_decide (question = "") then Alert "Please enter a question"
  else if bool_decide (length validOptions < 2)%nat
  then Alert "Please provide at least 2 options"
  else Posted question validOptions.

(** The JSON body of the POST. *)
Definition posted_body (q : string) (opts : list string) : gmap string JS.value :=
  {[ "question" := JS.Str q; "options" := JS.Arr (JS.Str <$> opts) ]}.

End CreateForm.

(* ===================================================================== *)
(** ** client/scripts/poll.js: the hash of generateFingerprint *)
(* ===================================================================== *)

(** ToInt32: the signed 32-bit integer congruent to [z]. *)
Definition to_int32 (z : Z) : Z := (z + 2 ^ 31) mod 2 ^ 32 - 2 ^ 31.

(** One turn of the loop: [hash = ((hash << 5) - hash) + char; hash = hash &
    hash].  The shift and the [&] work on 32-bit integers; the subtraction and
    the addition between them are exact. *)
Definition hash_step (hash : Z) (c : ascii) : Z :=
  let sum := to_int32 (Z.shiftl (to_int32 hash) 5) - hash
             + Z.of_nat (nat_of_ascii c) in
  Z.land (to_int32 sum) (to_int32 sum).

(** The loop over [fingerprintString], from [hash = 0]. *)
Fixpoint hash_from (hash : Z) (s : string) : Z :=
  match s with
  | EmptyString => hash
  | String c s' => hash_from (hash_step hash c) s'
  end.

Definition fingerprint_hash (fingerprintString : string) : Z :=
  hash_from 0 fingerprintString.

(* ===================================================================== *)
(** ** Auxiliary definitions for the properties *)
(* ===================================================================== *)

(** [w] with more statements on its trace. *)
Definition logged (ss : list statement) (w : world) : world :=
  World (store w) (rooms w) (outbox w) (trace w ++ ss).

(** The object [getPoll] builds from a row. *)
Definition poll_object (d : db) (pollId : string) (r : poll_row) : poll :=
  Poll pollId (question r) (options r) (created_at r) (vote_count r)
       (foldl dbHelpers.tally_step (JsArray ((λ _, 0) <$> options r) [])
              (statements.getVotesByPoll pollId d)).

(** The database after an accepted vote. *)
Definition committed (d : db) (pollId : string) (optionIndex : Qc)
    (ip fp : string) (now : Z) : db :=
  statements.updateVoteCount pollId
    (Db (polls d)
        (votes d ++ [VoteRow (Z.of_nat (length (votes d)) + 1)
                             pollId optionIndex ip fp now])).

(** The answer of the velocity check. *)
Definition velocity_rejection : response :=
  Response 429 (ErrorBody "Too many votes. Please wait before voting again.").

(** *** The admission controller of the specification

    The four checks in the words of the specification, to be compared with
    what the route handler does. *)
Inductive check : Type :=
| Structural
| DuplicateAddress
| DuplicateFingerprint
| Velocity.

Definition admission_order : list check :=
  [Structural; DuplicateAddress; DuplicateFingerprint; Velocity].

(** [q] is an integer: its reduced fraction has denominator 1. *)
Definition is_integer (q : Qc) : bool :=
  bool_decide (Qden (this q) = 1%positive).

(** Does check [c] fail for a vote on option [optionIndex] of a poll with
    [optionCount] options, from address [ip] and device [fp], at time [now]?
    The structural check asks for an integer in [0, optionCount). *)
Definition check_fails (d : db) (optionCount : nat) (pollId : string)
    (optionIndex : Qc) (ip fp : string) (now : Z) (c : check) : bool :=
  match c with
  | Structural =>
      negb (is_integer optionIndex
            && bool_decide (0 ≤ optionIndex)%Qc
            && bool_decide (optionIndex < Qc_of_Z (Z.of_nat optionCount))%Qc)
  | DuplicateAddress =>
      bool_decide (Exists (λ v, poll_id v = pollId ∧ ip_address v = ip) (votes d))
  | DuplicateFingerprint =>
      bool_decide (Exists (λ v, poll_id v = pollId ∧ fingerprint v = fp) (votes d))
  | Velocity =>
      bool_decide (Exists (λ v, poll_id v = pollId ∧ ip_address v = ip
                                ∧ now - VOTE_RATE_WINDOW_MS < voted_at v)
                          (votes d))
  end.

(** The rejection each check answers with. *)
Definition rejection (c : check) : response :=
  match c with
  | Structural => Response 400 (ErrorBody "Invalid option index")
  | DuplicateAddress | DuplicateFingerprint =>
      Response 403 (ErrorBody "You have already voted in this poll")
  | Velocity => velocity_rejection
  end.

(** The statement a check has to run to be evaluated; the structural check
    reads the poll already loaded. *)
Definition statements_of (c : check) : list statement :=
  match c with
  | Structural => []
  | DuplicateAddress => [StCheckVoteByIP]
  | DuplicateFingerprint => [StCheckVoteByFingerprint]
  | Velocity => [StGetRecentVotesByIP]
  end.

(** Evaluate the checks in order and stop at the first that fails: the checks
    that were evaluated, and the one that failed if any. *)
Fixpoint decide_admission (fails : check → bool) (cs : list check)
  : list check * option check :=
  match cs with
  | [] => ([], None)
  | c :: cs' =>
      if fails c then ([c], Some c)
      else let '(evaluated, verdict) := decide_admission fails cs' in
           (c :: evaluated, verdict)
  end.

(** *** Sequences of vote attempts *)

Record attempt : Type := Attempt {
  at_limited : bool;
  at_window : Z;
  at_commit : Z;
  at_request : request;
}.

Definition try_vote (a : attempt) : M response :=
  post_votes (at_limited a) (at_window a) (at_commit a) (at_request a).

Fixpoint try_votes (attempts : list attempt) : M (list response) :=
  match attempts with
  | [] => mret []
  | a :: rest =>
      r ← try_vote a;
      rs ← try_votes rest;
      mret (r :: rs)
  end.

(** The vote was recorded: the success body, sent with status 200. *)
Definition accepted (r : response) : bool :=
  match payload r with
  | VoteRecorded _ _ => true
  | _ => false
  end.

(** *** The limits on a new poll, in the words of the specification *)

Definition label_within (limit : nat) (v : JS.value) : Prop :=
  ∃ s, v = JS.Str s ∧ s ≠ "" ∧ (String.length s ≤ limit)%nat.

Definition within_limits (q opts : JS.value) : Prop :=
  label_within 500 q
  ∧ ∃ items, opts = JS.Arr items
             ∧ (2 ≤ length items ≤ 10)%nat
             ∧ Forall (label_within 200) items.

(** *** Invariants of the database *)

(** Every vote row belongs to a stored poll and its index lies between 0 and
    the number of options of that poll. *)
Definition votes_within_options (d : db) : Prop :=
  ∀ v, v ∈ votes d →
       ∃ r, polls d !! poll_id v = Some r
            ∧ (0 ≤ option_index v)%Qc
            ∧ (option_index v < Qc_of_Z (Z.of_nat (length (options r))))%Qc.

(** The number of [rows] voting for index [k]. *)
Definition count_index (rows : list vote_row) (k : Qc) : Z :=
  Z.of_nat (length (filter (λ v, option_index v = k) rows)).

(** The votes [getPoll] puts into an element of [results]: those whose index
    is an array index below the number of options. *)
Definition counted (optionCount : nat) (k : Qc) : bool :=
  bool_decide (k < Qc_of_Z (Z.of_nat optionCount))%Qc && is_array_index k.

(** The counter column agrees with the vote rows. *)
Definition vote_count_matches (d : db) : Prop :=
  ∀ id r, polls d !! id = Some r →
          vote_count r = Z.of_nat (length (statements.votes_of id d)).

(** *** Scenarios *)

(** The two-option poll after address 10.0.0.1 voted for option 0. *)
Definition after_first_vote : world :=
  (post_votes false 2000 2001
     (vote_request "10.0.0.1" "ABCDEFGH" (Qc_of_Z 0) "fp-a")
     (World red_blue ∅ [] [])).2.

(** A request behind a proxy chain. *)
Definition proxied_request : request :=
  Request {[ "x-forwarded-for" := "203.0.113.7, 10.0.0.1";
             "x-real-ip" := "198.51.100.2" ]}
          (Some "127.0.0.1") (Some "127.0.0.1") ∅ ∅.

(** A poll is created, then one vote with option index 1/2 is posted. *)
Definition half : Qc := Q2Qc (1 # 2).

Definition fractional_vote : request :=
  vote_request "10.0.0.1" "ABCDEFGH" half "fp-a".

Definition poll_created : world :=
  handle (PostPolls false "ABCDEFGH" 1000
            (poll_request "Colour?" ["Red"; "Blue"]))
         initial_world.

Definition fractional_run : world :=
  handle (PostVotes false 2000 2001 fractional_vote) poll_created.

(** Connection 7 is watching the two-option poll. *)
Definition viewer_joined : world :=
  (on_join_poll 7 (Some "ABCDEFGH") (World red_blue ∅ [] [])).2.

(** The deliveries among [l] that go to connection [sid]. *)
Definition deliveries_to (sid : nat) (l : list delivery) : list delivery :=
  filter (λ d, to_socket d = sid) l.

(** *** Stored text *)

(** The five characters [sanitizeInput] replaces. *)
Definition markup : list ascii :=
  ["<"%char; ">"%char; ascii_of_nat 34; "'"%char; "/"%char].

(** [s] holds none of them. *)
Definition markup_free (s : string) : Prop :=
  Forall (λ c, string_mem c s = false) markup.

(** A label as the database stores it. *)
Definition stored_label (s : string) : Prop :=
  s ≠ "" ∧ (String.length s ≤ 500)%nat ∧ markup_free s.

(** A poll row as the creation route writes it. *)
Definition poll_well_formed (r : poll_row) : Prop :=
  stored_label (question r)
  ∧ (2 ≤ length (options r) ≤ 10)%nat
  ∧ Forall stored_label (options r).

(** Several inputs, handled one after the other. *)
Definition handle_all (inputs : list input) (w : world) : world :=
  foldl (λ w i, handle i w) w inputs.

(** *** Voter identities *)

(** The two keys the route looks a voter up by. *)
Definition address_key (v : vote_row) : string * string :=
  (poll_id v, ip_address v).

Definition device_key (v : vote_row) : string * string :=
  (poll_id v, fingerprint v).

(** A poll is created, then one vote for option 1 is posted. *)
Definition after_integer_vote : world :=
  handle (PostVotes false 2000 2001
            (vote_request "10.0.0.1" "ABCDEFGH" (Qc_of_Z 1) "fp-a"))
         poll_created.

(** *** Poll ids *)

(** An ASCII digit or letter. *)
Definition is_alnum (c : ascii) : bool :=
  let n := nat_of_ascii c in
  ((48 <=? n)%nat && (n <=? 57)%nat)
  || ((65 <=? n)%nat && (n <=? 90)%nat)
  || ((97 <=? n)%nat && (n <=? 122)%nat).

(** Not one of the look-alikes the alphabet leaves out: 0, O, I and l. *)
Definition unambiguous (c : ascii) : bool := negb (string_mem c "0OIl").

(** The poll id a route validates: [req.params.pollId || req.body.pollId]. *)
Definition requested_poll_id (req : request) : JS.value :=
  JS.or (JS.field (params req) "pollId") (JS.field (body req) "pollId").

(** A well-formed vote for a poll that does not exist. *)
Definition vote_for_unknown_poll : request :=
  vote_request "10.0.0.2" "ZZZZZZZZ" (Qc_of_Z 1) "fp-b".

(** *** Kinds of input *)

Definition is_socket_input (i : input) : bool :=
  match i with
  | PostPolls _ _ _ _ | PostVotes _ _ _ _ => false
  | JoinPoll _ _ | VoteSubmitted _ _ | LeavePoll _ _ | Disconnect _ => true
  end.

(** Connection 7 and connection 8 are watching the two-option poll. *)
Definition two_viewers : world :=
  (on_join_poll 8 (Some "ABCDEFGH") viewer_joined).2.

(** *** The GET routes *)

(** The entry of the poll list for one row. *)
Definition summary_of (p : string * poll_row) : poll_summary :=
  PollSummary p.1 (question p.2) (vote_count p.2) (created_at p.2).

(** [a] is listed before [b]: it is not older. *)
Definition newer_first (a b : poll_summary) : Prop :=
  s_createdAt b ≤ s_createdAt a.

(** A GET request for the page of a poll. *)
Definition page_request (pollId : string) : request :=
  Request ∅ (Some "10.0.0.9") None {[ "pollId" := JS.Str pollId ]} ∅.

(** *** The client *)

(** The polynomial in 31 over the code units of [s], continuing from [acc]. *)
Fixpoint polynomial (acc : Z) (s : string) : Z :=
  match s with
  | EmptyString => acc
  | String c s' => polynomial (31 * acc + Z.of_nat (nat_of_ascii c)) s'
  end.

(** The option list after some events on the fresh form. *)
Definition form_after (events : list CreateForm.form_event)
  : list (option string) :=
  foldl CreateForm.fire CreateForm.initial_options events.

(** Case split on the test of the conditional a run is stuck on. *)
Ltac branch :=
  match goal with
  | |- (if ?b then _ else _) _ = _ => destruct b eqn:?
  | |- (let '(_, _) := (if ?b then _ else _) _ in _) = _ => destruct b eqn:?
  end.

(* ===================================================================== *)
(** * Properties *)
(* ===================================================================== *)

(** ** How the helpers run *)

Lemma logged_logged ss ss' w : logged ss' (logged ss w) = logged (ss ++ ss') w.
Proof. unfold logged; simpl. by rewrite app_assoc. Qed.

Lemma store_logged ss w : store (logged ss w) = store w.
Proof. done. Qed.

Lemma getPoll_run pollId w :
  dbHelpers.getPoll pollId w =
  match polls (store w) !! pollId with
  | None => (None, logged [StGetPoll] w)
  | Some r => (Some (poll_object (store w) pollId r),
               logged [StGetPoll; StGetVotesByPoll] w)
  end.
Proof.
  unfold dbHelpers.getPoll, query, statements.getPoll, mbind, M_bind, mret, M_ret.
  simpl. destruct (polls (store w) !! pollId) as [r|]; simpl; [|done].
  unfold poll_object, logged; simpl. by rewrite <- app_assoc.
Qed.

Lemma hasVotedByIP_run pollId ip w :
  dbHelpers.hasVotedByIP pollId ip w =
  (bool_decide (0 < statements.checkVoteByIP pollId ip (store w)),
   logged [StCheckVoteByIP] w).
Proof. done. Qed.

Lemma hasVotedByFingerprint_run pollId fp w :
  dbHelpers.hasVotedByFingerprint pollId fp w =
  (bool_decide (0 < statements.checkVoteByFingerprint pollId fp (store w)),
   logged [StCheckVoteByFingerprint] w).
Proof. done. Qed.

Lemma getRecentVoteCount_run pollId ip window now w :
  dbHelpers.getRecentVoteCount pollId ip window now w =
  (statements.getRecentVotesByIP pollId ip (now - window) (store w),
   logged [StGetRecentVotesByIP] w).
Proof. done. Qed.

Lemma addVote_run pollId optionIndex ip fp now w :
  dbHelpers.addVote pollId optionIndex ip fp now w =
  match polls (store w) !! pollId with
  | None => (false, logged [StCreateVote] w)
  | Some _ =>
      (true, World (committed (store w) pollId optionIndex ip fp now)
                   (rooms w) (outbox w)
                   (trace w ++ [StCreateVote; StUpdateVoteCount]))
  end.
Proof.
  unfold dbHelpers.addVote, transaction, run, statements.createVote,
    mbind, M_bind, mret, M_ret, committed, logged.
  simpl. destruct (polls (store w) !! pollId); simpl; [|done].
  by rewrite <- app_assoc.
Qed.

Lemma committed_polls d pollId n ip fp now :
  polls (committed d pollId n ip fp now)
  = alter (λ r, PollRow (question r) (options r) (created_at r)
                        (vote_count r + 1)) pollId (polls d).
Proof. done. Qed.

Lemma committed_lookup d pollId n ip fp now r :
  polls d !! pollId = Some r →
  polls (committed d pollId n ip fp now) !! pollId
  = Some (PollRow (question r) (options r) (created_at r) (vote_count r + 1)).
Proof. intros H. rewrite committed_polls, lookup_alter_eq, H. done. Qed.

(** The route handler at the admission stage, branch by branch. *)
Lemma post_votes_handler_run tWindow tCommit req w pollId n fp r :
  validateVoteData (JS.field (body req) "pollId")
                   (JS.field (body req) "optionIndex")
                   (JS.field (body req) "fingerprint") = VoteValid pollId n fp →
  polls (store w) !! pollId = Some r →
  post_votes_handler tWindow tCommit req w =
  let d := store w in
  let ip := getClientIp req in
  if bool_decide (Qc_of_Z (Z.of_nat (length (options r))) ≤ n)%Qc then
    (Response 400 (ErrorBody "Invalid option index"),
     logged [StGetPoll; StGetVotesByPoll] w)
  else if bool_decide (0 < statements.checkVoteByIP pollId ip d) then
    (Response 403 (ErrorBody "You have already voted in this poll"),
     logged [StGetPoll; StGetVotesByPoll; StCheckVoteByIP] w)
  else if bool_decide (0 < statements.checkVoteByFingerprint pollId fp d) then
    (Response 403 (ErrorBody "You have already voted in this poll"),
     logged [StGetPoll; StGetVotesByPoll; StCheckVoteByIP;
             StCheckVoteByFingerprint] w)
  else if bool_decide (VOTES_PER_IP_PER_POLL ≤
            statements.getRecentVotesByIP pollId ip
              (tWindow - VOTE_RATE_WINDOW_MS) d) then
    (Response 429 (ErrorBody "Too many votes. Please wait before voting again."),
     logged [StGetPoll; StGetVotesByPoll; StCheckVoteByIP;
             StCheckVoteByFingerprint; StGetRecentVotesByIP] w)
  else
    let d' := committed d pollId n ip fp tCommit in
    let r' := PollRow (question r) (options r) (created_at r) (vote_count r + 1) in
    let results := elems (p_results (poll_object d' pollId r')) in
    (Response 200 (VoteRecorded results (sum_results results)),
     World d' (rooms w) (outbox w)
           (trace w ++ [StGetPoll; StGetVotesByPoll; StCheckVoteByIP;
                        StCheckVoteByFingerprint; StGetRecentVotesByIP;
                        StCreateVote; StUpdateVoteCount;
                        StGetPoll; StGetVotesByPoll])).
Proof.
  intros Hvalid Hrow. unfold post_votes_handler. rewrite Hvalid.
  unfold mbind, M_bind. rewrite getPoll_run, Hrow. cbn [p_options poll_object].
  branch; [done|]. cbn beta.
  rewrite hasVotedByIP_run, logged_logged, store_logged.
  branch; [done|]. cbn beta.
  rewrite hasVotedByFingerprint_run, logged_logged, store_logged.
  branch; [done|]. cbn beta.
  rewrite getRecentVoteCount_run, logged_logged, store_logged.
  branch; [done|]. cbn beta.
  rewrite addVote_run, store_logged, Hrow. cbn [negb].
  rewrite getPoll_run. cbn [store].
  rewrite (committed_lookup _ _ _ _ _ _ _ Hrow).
  cbn zeta. unfold logged, mret, M_ret. cbn [store rooms outbox trace app].
  by rewrite <- !app_assoc.
Qed.

(** The recent votes of an address are among all its votes. *)
Lemma recent_votes_bound pollId ip cutoff d :
  0 ≤ statements.getRecentVotesByIP pollId ip cutoff d
    ≤ statements.checkVoteByIP pollId ip d.
Proof.
  unfold statements.getRecentVotesByIP, statements.checkVoteByIP.
  generalize (statements.votes_of pollId d). intros l.
  induction l as [|v l IH]; simpl; [lia|].
  rewrite !filter_cons.
  destruct (decide (ip_address v = ip ∧ cutoff < voted_at v)) as [[Hv _]|Hv];
    destruct (decide (ip_address v = ip)); simpl; try lia. done.
Qed.

Lemma validateVoteData_valid pollId optionIndex fp p n f :
  validateVoteData pollId optionIndex fp = VoteValid p n f →
  pollId = JS.Str p ∧ optionIndex = JS.Num n ∧ fp = JS.Str f
  ∧ p ≠ "" ∧ f ≠ "" ∧ (0 ≤ n)%Qc.
Proof.
  unfold validateVoteData. intros H.
  destruct pollId as [| | | |s| |]; try discriminate.
  destruct (negb (JS.truthy (JS.Str s))) eqn:Hs; [discriminate|].
  destruct optionIndex as [| | |m| | |]; try discriminate.
  case_bool_decide as Hm; [discriminate|].
  destruct fp as [| | | |g| |]; try discriminate.
  destruct (negb (JS.truthy (JS.Str g))) eqn:Hg; [discriminate|].
  injection H as <- <- <-. simpl in Hs, Hg.
  rewrite negb_false_iff, negb_true_iff in Hs, Hg.
  apply bool_decide_eq_false in Hs, Hg.
  repeat split; try done. by apply Qcnot_lt_le.
Qed.

(** Every run of the vote route either answers with an error and leaves the
    database, the rooms and the outbox as they were, never with the velocity
    rejection, or commits one vote for an existing poll and answers 200. *)
Lemma post_votes_cases limited tWindow tCommit req w :
  (∃ code error ss,
      post_votes limited tWindow tCommit req w
      = (Response code (ErrorBody error), logged ss w)
      ∧ Response code (ErrorBody error) ≠ velocity_rejection)
  ∨ (∃ pollId n fp r,
      validateVoteData (JS.field (body req) "pollId")
                       (JS.field (body req) "optionIndex")
                       (JS.field (body req) "fingerprint") = VoteValid pollId n fp
      ∧ polls (store w) !! pollId = Some r
      ∧ (0 ≤ n)%Qc ∧ (n < Qc_of_Z (Z.of_nat (length (options r))))%Qc
      ∧ let d' := committed (store w) pollId n (getClientIp req) fp tCommit in
        let r' := PollRow (question r) (options r) (created_at r)
                          (vote_count r + 1) in
        let results := elems (p_results (poll_object d' pollId r')) in
        post_votes limited tWindow tCommit req w
        = (Response 200 (VoteRecorded results (sum_results results)),
           World d' (rooms w) (outbox w)
                 (trace w ++ [StGetPoll; StGetVotesByPoll; StCheckVoteByIP;
                              StCheckVoteByFingerprint; StGetRecentVotesByIP;
                              StCreateVote; StUpdateVoteCount;
                              StGetPoll; StGetVotesByPoll]))).
Proof.
  assert (Hnil : ∀ v : world, v = logged [] v).
  { intros [????]. unfold logged; simpl. by rewrite app_nil_r. }
  unfold post_votes, voteLimiter, requireBody, validatePollId.
  destruct limited.
  { left. eexists _, _, []. split; [by rewrite <- Hnil|done]. }
  case_bool_decide.
  { left. eexists _, _, []. split; [by rewrite <- Hnil|done]. }
  destruct (negb (JS.truthy _)).
  { left. eexists _, _, []. split; [by rewrite <- Hnil|done]. }
  destruct (negb (isValidPollId _)).
  { left. eexists _, _, []. split; [by rewrite <- Hnil|done]. }
  destruct (validateVoteData _ _ _) as [error|pollId n fp] eqn:Hvalid.
  { left. exists 400%nat, error, []. unfold post_votes_handler.
    rewrite Hvalid. split; [by rewrite <- Hnil|done]. }
  destruct (polls (store w) !! pollId) as [r|] eqn:Hrow.
  2:{ left. exists 404%nat, "Poll not found", [StGetPoll].
      unfold post_votes_handler. rewrite Hvalid.
      unfold mbind, M_bind. rewrite getPoll_run, Hrow. done. }
  rewrite (post_votes_handler_run _ _ _ _ _ _ _ _ Hvalid Hrow). cbn zeta.
  destruct (validateVoteData_valid _ _ _ _ _ _ Hvalid) as (_&_&_&_&_&Hn).
  case_bool_decide as Hrange; [left; by eexists _, _, _|].
  case_bool_decide as Hip; [left; by eexists _, _, _|].
  case_bool_decide as Hfp; [left; by eexists _, _, _|].
  case_bool_decide as Hrecent.
  { exfalso. apply Hip. unfold VOTES_PER_IP_PER_POLL in Hrecent.
    pose proof (recent_votes_bound pollId (getClientIp req)
                  (tWindow - VOTE_RATE_WINDOW_MS) (store w)). lia. }
  right. exists pollId, n, fp, r. repeat split; try done.
  by apply Qcnot_le_lt.
Qed.

Lemma tally_lookup d pollId :
  tally d pollId
  = (λ r, elems (p_results (poll_object d pollId r))) <$> polls d !! pollId.
Proof.
  unfold tally. rewrite getPoll_run. simpl.
  by destruct (polls d !! pollId).
Qed.

Lemma try_votes_rejected attempts w :
  Forall (λ r, accepted r = false) (try_votes attempts w).1 →
  ∃ ss, (try_votes attempts w).2 = logged ss w.
Proof.
  revert w. induction attempts as [|a rest IH]; intros w Hrej.
  - exists []. destruct w. unfold logged; simpl. by rewrite app_nil_r.
  - simpl in *. unfold mbind, M_bind in *. unfold try_vote in *.
    destruct (post_votes_cases (at_limited a) (at_window a) (at_commit a)
                (at_request a) w) as [(code&err&ss&Hrun&_)|(p&n&f&r&_&_&_&_&Hrun)];
      cbn zeta in Hrun; rewrite Hrun in *.
    + destruct (try_votes rest (logged ss w)) as [rs w'] eqn:Hrest.
      simpl in *. apply Forall_cons in Hrej as [_ Hrej].
      specialize (IH (logged ss w)). rewrite Hrest in IH.
      destruct (IH Hrej) as [ss' Hw']. simpl in Hw'. subst w'.
      exists (ss ++ ss'). apply logged_logged.
    + destruct (try_votes rest _) as [rs w'].
      simpl in Hrej. apply Forall_cons in Hrej as [Hrej _]. done.
Qed.

(* ===================================================================== *)
(** ** Rejections leave the store alone *)
(* ===================================================================== *)

(** C5.  Whenever vote attempts are rejected, whatever the reason (limiter,
    malformed body, unknown poll, any admission check), the store after them
    is the store before them: no vote row, no changed [vote_count], and
    [getPoll] reports the same tally for every poll.  This holds for any
    number of rejected attempts in a row. *)
Theorem rejected_votes_mutate_nothing (attempts : list attempt) (w : world) :
  Forall (λ r, accepted r = false) (try_votes attempts w).1 →
  store (try_votes attempts w).2 = store w
  ∧ ∀ pollId, tally (store (try_votes attempts w).2) pollId
              = tally (store w) pollId.
Proof.
  intros Hrej. destruct (try_votes_rejected _ _ Hrej) as [ss ->].
  by rewrite store_logged.
Qed.

Lemma rejected_votes_mutate_nothing_witness :
  let retry := Attempt false 3000 3001
                 (vote_request "10.0.0.1" "ABCDEFGH" (Qc_of_Z 1) "fp-a") in
  let wild := Attempt false 3000 3001
                 (vote_request "10.0.0.2" "ABCDEFGH" (Qc_of_Z 5) "fp-b") in
  store (try_votes [retry; retry; wild] after_first_vote).2
  = store after_first_vote
  ∧ ∀ pollId, tally (store (try_votes [retry; retry; wild] after_first_vote).2)
                    pollId
              = tally (store after_first_vote) pollId.
Proof.
  intros retry wild.
  apply (rejected_votes_mutate_nothing [retry; retry; wild] after_first_vote).
  vm_compute. repeat constructor.
Defined.

(* ===================================================================== *)
(** ** The identity extractor *)
(* ===================================================================== *)

(** What [split(',')[0]] returns is the text of its argument up to the first
    comma. *)
Lemma split_comma_head_prefix s :
  string_mem ","%char (JS.split_comma_head s) = false
  ∧ (s = JS.split_comma_head s
     ∨ ∃ rest, s = JS.split_comma_head s +:+ String ","%char rest).
Proof.
  induction s as [|c s [IH1 IH2]]; simpl; [by auto|].
  case_bool_decide as Hc; simpl.
  - split; [done|]. right. exists s. by subst c.
  - split.
    + rewrite IH1. rewrite orb_false_r. apply bool_decide_eq_false.
      by intros <-.
    + destruct IH2 as [IH2|[rest IH2]]; [left; congruence|].
      right. exists rest.
      change (String c s
              = String c (JS.split_comma_head s +:+ String ","%char rest)).
      congruence.
Qed.

(** C7.  [getClientIp] picks the address by precedence: the first entry of
    a non-empty [x-forwarded-for] chain (trimmed), else a non-empty
    [x-real-ip] header, else the peer address of the connection (or of the
    socket), else the text "unknown".  It is a total function, and its result
    depends on nothing but these four pieces of request metadata. *)
Theorem getClientIp_precedence (req : request) :
  let forwarded := headers req !! "x-forwarded-for" in
  let real := headers req !! "x-real-ip" in
  let peer := if JS.present (connection_remoteAddress req)
              then connection_remoteAddress req
              else socket_remoteAddress req in
  (∀ chain, forwarded = Some chain → chain ≠ "" →
     getClientIp req = JS.trim (JS.split_comma_head chain))
  ∧ (JS.present forwarded = false →
     ∀ a, real = Some a → a ≠ "" → getClientIp req = a)
  ∧ (JS.present forwarded = false → JS.present real = false →
     ∀ a, peer = Some a → a ≠ "" → getClientIp req = a)
  ∧ (JS.present forwarded = false → JS.present real = false →
     JS.present peer = false → getClientIp req = "unknown")
  ∧ (∀ req',
       headers req' !! "x-forwarded-for" = forwarded →
       headers req' !! "x-real-ip" = real →
       connection_remoteAddress req' = connection_remoteAddress req →
       socket_remoteAddress req' = socket_remoteAddress req →
       getClientIp req' = getClientIp req).
Proof.
  cbn zeta. unfold getClientIp. repeat split.
  - intros chain -> Hne. simpl. by rewrite bool_decide_eq_false_2.
  - intros -> a -> Hne. simpl. by rewrite bool_decide_eq_false_2.
  - intros -> -> a Hpeer Hne.
    destruct (JS.present (connection_remoteAddress req)) eqn:Hconn.
    + by rewrite Hpeer.
    + rewrite Hpeer. simpl. by rewrite bool_decide_eq_false_2.
  - intros -> -> Hpeer.
    destruct (JS.present (connection_remoteAddress req)) eqn:Hconn.
    + congruence.
    + by rewrite Hpeer.
  - intros req' -> -> -> ->. done.
Qed.

Lemma getClientIp_precedence_witness :
  getClientIp proxied_request = "203.0.113.7".
Proof.
  exact (proj1 (getClientIp_precedence proxied_request)
               "203.0.113.7, 10.0.0.1" eq_refl ltac:(discriminate)).
Defined.

(* ===================================================================== *)
(** ** The velocity check *)
(* ===================================================================== *)

(** C9.  When the duplicate-by-address check passes, the address has no
    vote at all for the poll, so [getRecentVoteCount] is zero for every window
    and every clock reading; and no run of the vote route, from any state,
    answers with the velocity rejection. *)
Theorem velocity_rejection_unreachable :
  (∀ (w : world) (pollId ip : string) (timeWindowMs now : Z),
      (dbHelpers.hasVotedByIP pollId ip w).1 = false →
      (dbHelpers.getRecentVoteCount pollId ip timeWindowMs now w).1 = 0)
  ∧ (∀ (limited : bool) (tWindow tCommit : Z) (req : request) (w : world),
      (post_votes limited tWindow tCommit req w).1 ≠ velocity_rejection).
Proof.
  split.
  - intros w pollId ip window now.
    rewrite hasVotedByIP_run, getRecentVoteCount_run. simpl.
    intros Hnone%bool_decide_eq_false.
    pose proof (recent_votes_bound pollId ip (now - window) (store w)). lia.
  - intros limited tWindow tCommit req w.
    destruct (post_votes_cases limited tWindow tCommit req w)
      as [(code&err&ss&->&Hne)|(p&n&f&r&_&_&_&_&Hrun)]; [done|].
    cbn zeta in Hrun. by rewrite Hrun.
Qed.

Lemma velocity_rejection_unreachable_witness :
  (dbHelpers.getRecentVoteCount "ABCDEFGH" "10.0.0.2" VOTE_RATE_WINDOW_MS 2500
     after_first_vote).1 = 0.
Proof.
  apply (proj1 velocity_rejection_unreachable after_first_vote
               "ABCDEFGH" "10.0.0.2" VOTE_RATE_WINDOW_MS 2500).
  vm_compute. reflexivity.
Defined.

(* ===================================================================== *)
(** ** The order of the admission checks *)
(* ===================================================================== *)

Lemma count_positive_Exists {A} (P Q : A → Prop)
    `{∀ x, Decision (P x)} `{∀ x, Decision (Q x)}
    `{∀ x, Decision (P x ∧ Q x)} (l : list A) :
  0 < Z.of_nat (length (filter Q (filter P l))) ↔ Exists (λ x, P x ∧ Q x) l.
Proof.
  induction l as [|x l IH]; simpl.
  - split; [lia|]. by intros ?%Exists_nil.
  - rewrite Exists_cons, filter_cons.
    destruct (decide (P x)) as [HP|HP].
    + rewrite filter_cons. destruct (decide (Q x)) as [HQ|HQ]; simpl.
      * split; [by left|lia].
      * rewrite IH. tauto.
    + rewrite IH. tauto.
Qed.

Section check_fails.
Context (d : db) (optionCount : nat) (pollId : string) (n : Qc)
        (ip fp : string) (now : Z).

Lemma structural_fails :
  is_integer n = true →
  (0 ≤ n)%Qc →
  check_fails d optionCount pollId n ip fp now Structural
  = bool_decide (Qc_of_Z (Z.of_nat optionCount) ≤ n)%Qc.
Proof.
  intros Hint Hn. simpl. rewrite Hint, (bool_decide_eq_true_2 _ Hn). simpl.
  destruct (decide (n < Qc_of_Z (Z.of_nat optionCount))%Qc) as [Hlt|Hge].
  - rewrite (bool_decide_eq_true_2 _ Hlt), bool_decide_eq_false_2; [done|].
    by apply Qclt_not_le.
  - rewrite (bool_decide_eq_false_2 _ Hge), bool_decide_eq_true_2; [done|].
    by apply Qcnot_lt_le.
Qed.

Lemma duplicate_address_fails :
  check_fails d optionCount pollId n ip fp now DuplicateAddress
  = bool_decide (0 < statements.checkVoteByIP pollId ip d).
Proof.
  simpl. apply bool_decide_ext. unfold statements.checkVoteByIP,
    statements.votes_of. symmetry.
  apply (count_positive_Exists (λ v, poll_id v = pollId)
                               (λ v, ip_address v = ip)).
Qed.

Lemma duplicate_fingerprint_fails :
  check_fails d optionCount pollId n ip fp now DuplicateFingerprint
  = bool_decide (0 < statements.checkVoteByFingerprint pollId fp d).
Proof.
  simpl. apply bool_decide_ext. unfold statements.checkVoteByFingerprint,
    statements.votes_of. symmetry.
  apply (count_positive_Exists (λ v, poll_id v = pollId)
                               (λ v, fingerprint v = fp)).
Qed.

Lemma velocity_fails :
  check_fails d optionCount pollId n ip fp now Velocity
  = bool_decide (VOTES_PER_IP_PER_POLL ≤
       statements.getRecentVotesByIP pollId ip (now - VOTE_RATE_WINDOW_MS) d).
Proof.
  simpl. apply bool_decide_ext. unfold statements.getRecentVotesByIP,
    statements.votes_of, VOTES_PER_IP_PER_POLL.
  rewrite <- (count_positive_Exists
                (λ v, poll_id v = pollId)
                (λ v, ip_address v = ip ∧ now - VOTE_RATE_WINDOW_MS < voted_at v)).
  lia.
Qed.

End check_fails.


(** X26.  For a vote request with an integer option index that reaches the
    admission stage (it passed the middleware and the shape validation, and
    its poll exists), the route does what the admission controller of the
    specification does with the checks in the order structural,
    duplicate-by-address, duplicate-by-fingerprint, velocity: after loading
    the poll it runs the statements of exactly the checks evaluated up to the
    first failing one, answers with that check's rejection and leaves the
    store alone; only when no check fails does it commit the vote and answer
    200.  Each database check of the route, run on its own, fails exactly
    when the check of the specification does. *)
Theorem admission_checks_in_order
    (tWindow tCommit : Z) (req : request) (w : world)
    (pollId : string) (n : Qc) (fp : string) (r : poll_row) :
  requireBody req = None →
  validatePollId req = None →
  validateVoteData (JS.field (body req) "pollId")
                   (JS.field (body req) "optionIndex")
                   (JS.field (body req) "fingerprint") = VoteValid pollId n fp →
  polls (store w) !! pollId = Some r →
  is_integer n = true →
  let ip := getClientIp req in
  let fails := check_fails (store w) (length (options r)) pollId n ip fp
                           tWindow in
  let evaluated := (decide_admission fails admission_order).1 in
  let verdict := (decide_admission fails admission_order).2 in
  let res := (post_votes false tWindow tCommit req w).1 in
  let w' := (post_votes false tWindow tCommit req w).2 in
  trace w' = trace w ++ [StGetPoll; StGetVotesByPoll]
                     ++ (evaluated ≫= statements_of)
                     ++ match verdict with
                        | Some _ => []
                        | None => [StCreateVote; StUpdateVoteCount;
                                   StGetPoll; StGetVotesByPoll]
                        end
  ∧ match verdict with
    | Some c => res = rejection c ∧ store w' = store w
    | None => status res = 200%nat ∧ accepted res = true
              ∧ store w' = committed (store w) pollId n ip fp tCommit
    end
  ∧ (dbHelpers.hasVotedByIP pollId ip w).1 = fails DuplicateAddress
  ∧ (dbHelpers.hasVotedByFingerprint pollId fp w).1 = fails DuplicateFingerprint
  ∧ bool_decide (VOTES_PER_IP_PER_POLL
                 ≤ (dbHelpers.getRecentVoteCount pollId ip VOTE_RATE_WINDOW_MS
                                                 tWindow w).1)
    = fails Velocity.
Proof.
  intros Hbody Hid Hvalid Hrow Hint. cbn zeta.
  destruct (validateVoteData_valid _ _ _ _ _ _ Hvalid) as (_&_&_&_&_&Hn).
  rewrite hasVotedByIP_run, hasVotedByFingerprint_run, getRecentVoteCount_run.
  cbn [fst].
  rewrite <- duplicate_address_fails with (optionCount := length (options r))
    (n := n) (fp := fp) (now := tWindow).
  rewrite <- duplicate_fingerprint_fails with (optionCount := length (options r))
    (n := n) (ip := getClientIp req) (now := tWindow).
  rewrite <- velocity_fails with (optionCount := length (options r))
    (n := n) (fp := fp).
  split_and!; [| |done|done|done].
  all: unfold post_votes, voteLimiter; rewrite Hbody, Hid;
    rewrite (post_votes_handler_run _ _ _ _ _ _ _ _ Hvalid Hrow); cbn zeta;
    unfold admission_order, decide_admission;
    rewrite structural_fails by done;
    rewrite duplicate_address_fails, duplicate_fingerprint_fails, velocity_fails;
    repeat case_bool_decide; done.
Qed.

Lemma admission_checks_in_order_witness :
  let req := vote_request "10.0.0.1" "ABCDEFGH" (Qc_of_Z 1) "fp-z" in
  (post_votes false 3000 3001 req after_first_vote).1
  = Response 403 (ErrorBody "You have already voted in this poll")
  ∧ store (post_votes false 3000 3001 req after_first_vote).2
    = store after_first_vote.
Proof.
  intros req.
  assert (Hbody : requireBody req = None) by (vm_compute; reflexivity).
  assert (Hid : validatePollId req = None) by (vm_compute; reflexivity).
  assert (Hvalid : validateVoteData (JS.field (body req) "pollId")
                     (JS.field (body req) "optionIndex")
                     (JS.field (body req) "fingerprint")
                   = VoteValid "ABCDEFGH" (Qc_of_Z 1) "fp-z")
    by (vm_compute; reflexivity).
  assert (Hrow : polls (store after_first_vote) !! "ABCDEFGH"
                 = Some (PollRow "Colour?" ["Red"; "Blue"] 1000 1))
    by (vm_compute; reflexivity).
  assert (Hint : is_integer (Qc_of_Z 1) = true) by (vm_compute; reflexivity).
  destruct (admission_checks_in_order 3000 3001 req after_first_vote
              "ABCDEFGH" (Qc_of_Z 1) "fp-z" _ Hbody Hid Hvalid Hrow Hint)
    as (_ & Hverdict & _).
  vm_compute in Hverdict. vm_compute. exact Hverdict.
Defined.

(* ===================================================================== *)
(** ** Poll creation *)
(* ===================================================================== *)

Lemma truthy_Str s : JS.truthy (JS.Str s) = true → s ≠ "".
Proof. simpl. rewrite negb_true_iff. apply bool_decide_eq_false. Qed.

Lemma validate_options_None i opts :
  validate_options i opts = None → Forall (label_within 200) opts.
Proof.
  revert i. induction opts as [|o opts IH]; intros i; simpl; [by constructor|].
  destruct o as [| | | |s| |]; try discriminate.
  destruct (negb (JS.truthy (JS.Str s))) eqn:Hs; [discriminate|].
  cbn [orb]. case_bool_decide; [discriminate|].
  case_bool_decide as Hlen; [discriminate|]. intros Hrest.
  constructor; [|by eapply IH].
  exists s. apply negb_false_iff, truthy_Str in Hs. split_and!; [done..|lia].
Qed.

Lemma validatePollData_valid q opts q' opts' :
  validatePollData q opts = PollValid q' opts' → within_limits q opts.
Proof.
  unfold validatePollData.
  destruct q as [| | | |s| |]; try discriminate.
  destruct (negb (JS.truthy (JS.Str s))) eqn:Hs; [discriminate|].
  cbn [orb]. case_bool_decide; [discriminate|].
  case_bool_decide as Hlen; [discriminate|].
  destruct opts as [| | | | |items|]; try discriminate.
  case_bool_decide as Hmin; [discriminate|].
  case_bool_decide as Hmax; [discriminate|].
  destruct (validate_options 0 items) eqn:Hitems; [discriminate|]. intros _.
  apply negb_false_iff, truthy_Str in Hs. split.
  - exists s. split_and!; [done..|lia].
  - exists items. split_and!; [done|lia|lia|by eapply validate_options_None].
Qed.

(** A run of the creation route: an error that leaves the store alone, or
    one new row under a fresh id. *)
Lemma post_polls_cases limited generated now req w :
  (∃ code error ss,
      post_polls limited generated now req w
      = (Response code (ErrorBody error), logged ss w)
      ∧ (limited = false →
         (∀ q opts, validatePollData (JS.field (body req) "question")
                                     (JS.field (body req) "options")
                    ≠ PollValid q opts) →
         code = 400%nat))
  ∨ (∃ q opts,
      validatePollData (JS.field (body req) "question")
                       (JS.field (body req) "options") = PollValid q opts
      ∧ polls (store w) !! generated = None
      ∧ post_polls limited generated now req w
        = (Response 201 (PollCreated generated q opts ("/poll/" +:+ generated)),
           World (Db (<[generated := PollRow q opts now 0]> (polls (store w)))
                     (votes (store w)))
                 (rooms w) (outbox w) (trace w ++ [StCreatePoll]))).
Proof.
  assert (Hnil : ∀ v : world, v = logged [] v).
  { intros [????]. unfold logged; simpl. by rewrite app_nil_r. }
  unfold post_polls, createPollLimiter, requireBody.
  destruct limited.
  { left. eexists _, _, []. split; [by rewrite <- Hnil|done]. }
  case_bool_decide.
  { left. eexists _, _, []. split; [by rewrite <- Hnil|done]. }
  unfold post_polls_handler.
  destruct (validatePollData _ _) as [error|q opts] eqn:Hvalid.
  { left. exists 400%nat, error, []. split; [by rewrite <- Hnil|done]. }
  unfold dbHelpers.createPoll, mbind, M_bind, run, statements.createPoll.
  cbn beta. destruct (polls (store w) !! generated) eqn:Hrow; simpl.
  - left. exists 500%nat, "Failed to create poll", [StCreatePoll].
    split; [done|]. intros _ Hinv. by destruct (Hinv q opts).
  - right. by exists q, opts.
Qed.

(** C8.  The creation route answers 201 only if the question is a non-empty
    string of at most 500 characters and the options are a list of 2 to 10
    non-empty strings of at most 200 characters each.  A request outside
    these limits gets an error body, status 400 when the limiter let it
    through, and the store is unchanged: no poll is created. *)
Theorem poll_creation_limits
    (limited : bool) (generated : string) (now : Z) (req : request) (w : world) :
  let q := JS.field (body req) "question" in
  let opts := JS.field (body req) "options" in
  let res := (post_polls limited generated now req w).1 in
  let w' := (post_polls limited generated now req w).2 in
  (status res = 201%nat → within_limits q opts)
  ∧ (¬ within_limits q opts →
     (∃ error, payload res = ErrorBody error)
     ∧ (limited = false → status res = 400%nat)
     ∧ store w' = store w).
Proof.
  cbn zeta.
  destruct (post_polls_cases limited generated now req w)
    as [(code&err&ss&Hrun&Hcode)|(q&opts&Hvalid&Hfresh&Hrun)]; rewrite Hrun.
  - simpl. split.
    + intros ->. destruct limited.
      * unfold post_polls in Hrun. simpl in Hrun. by injection Hrun.
      * destruct (validatePollData (JS.field (body req) "question")
                    (JS.field (body req) "options")) as [e|q' o'] eqn:Hvalid.
        -- assert (201%nat = 400%nat); [|done]. apply Hcode; [done|].
           intros ??. discriminate.
        -- by eapply validatePollData_valid.
    + intros Hout. split_and!; [by eexists| |done].
      intros Hlim. apply Hcode; [done|]. intros q' o' Hvalid.
      apply Hout. by eapply validatePollData_valid.
  - simpl. split.
    + intros _. by eapply validatePollData_valid.
    + intros Hout. destruct Hout. by eapply validatePollData_valid.
Qed.

Lemma poll_creation_limits_witness :
  let req := poll_request "Colour?" ["Red"] in
  (∃ error, payload (post_polls false "ABCDEFGH" 1000 req initial_world).1
            = ErrorBody error)
  ∧ (false = false →
     status (post_polls false "ABCDEFGH" 1000 req initial_world).1 = 400%nat)
  ∧ store (post_polls false "ABCDEFGH" 1000 req initial_world).2
    = store initial_world.
Proof.
  intros req.
  apply (proj2 (poll_creation_limits false "ABCDEFGH" 1000 req initial_world)).
  intros [_ (items & Hitems & Hlen & _)].
  vm_compute in Hitems. injection Hitems as <-. simpl in Hlen. lia.
Defined.

(* ===================================================================== *)
(** ** The counter column *)
(* ===================================================================== *)

(** What one input can do to the database: nothing, one new poll under a
    fresh id, or one committed vote for a stored poll with an index between 0
    and the number of options. *)
Lemma handle_store i w :
  store (handle i w) = store w
  ∨ (∃ id q opts now,
        polls (store w) !! id = None
        ∧ store (handle i w)
          = Db (<[id := PollRow q opts now 0]> (polls (store w)))
               (votes (store w)))
  ∨ (∃ pollId n ip fp now r,
        polls (store w) !! pollId = Some r
        ∧ (0 ≤ n)%Qc ∧ (n < Qc_of_Z (Z.of_nat (length (options r))))%Qc
        ∧ store (handle i w) = committed (store w) pollId n ip fp now).
Proof.
  destruct i as [limited generated now req|limited tWindow tCommit req
                |sid pollId|sid pollId|sid pollId|sid]; simpl.
  - destruct (post_polls_cases limited generated now req w)
      as [(code&err&ss&->&_)|(q&opts&_&Hfresh&->)]; [by left|].
    right; left. by exists generated, q, opts, now.
  - destruct (post_votes_cases limited tWindow tCommit req w)
      as [(code&err&ss&->&_)|(p&n&f&r&_&Hrow&Hn&Hlt&Hrun)]; [by left|].
    cbn zeta in Hrun. rewrite Hrun. right; right.
    by exists p, n, (getClientIp req), f, tCommit, r.
  - left. unfold on_join_poll. destruct (negb (JS.present pollId)); [done|].
    unfold mbind, M_bind, socket_join. rewrite getPoll_run. simpl.
    by destruct (polls (store w) !! default "" pollId).
  - left. unfold on_vote_submitted. destruct (negb (JS.present pollId)); [done|].
    unfold mbind, M_bind. rewrite getPoll_run.
    by destruct (polls (store w) !! default "" pollId).
  - left. unfold on_leave_poll. by destruct (negb (JS.present pollId)).
  - by left.
Qed.

Lemma votes_of_committed d pollId n ip fp now id :
  statements.votes_of id (committed d pollId n ip fp now)
  = statements.votes_of id d
    ++ (if decide (pollId = id)
        then [VoteRow (Z.of_nat (length (votes d)) + 1) pollId n ip fp now]
        else []).
Proof.
  unfold statements.votes_of, committed. simpl. by rewrite filter_app.
Qed.

Lemma filter_none {A} (P : A → Prop) `{∀ x, Decision (P x)} (l : list A) :
  (∀ x, x ∈ l → ¬ P x) → filter P l = [].
Proof.
  induction l as [|x l IH]; intros Hl; [done|].
  rewrite filter_cons. destruct (decide (P x)) as [HP|_].
  - destruct (Hl x); [by left|done].
  - apply IH. intros y Hy. apply Hl. by right.
Qed.

Lemma votes_of_unreferenced d id :
  votes_within_options d → polls d !! id = None → statements.votes_of id d = [].
Proof.
  intros Href Hnone. unfold statements.votes_of.
  apply filter_none. intros v Hv Hid.
  destruct (Href v Hv) as (r & Hr & _). congruence.
Qed.

Lemma reachable_invariants w :
  reachable w →
  votes_within_options (store w) ∧ vote_count_matches (store w).
Proof.
  induction 1 as [|i w _ [Href Hcount]].
  - split; [by intros v ?%elem_of_nil|]. by intros id r ?.
  - destruct (handle_store i w)
      as [->|[(id&q&opts&now&Hfresh&->)|(p&n&ip&fp&now&r&Hrow&Hn&Hlt&->)]];
      [done| |].
    + split.
      * intros v Hv. simpl in *. destruct (Href v Hv) as (r & Hr & Hbounds).
        exists r. rewrite lookup_insert_ne; [done|]. congruence.
      * intros id' r. simpl. unfold statements.votes_of. simpl.
        destruct (decide (id = id')) as [<-|Hne].
        -- rewrite lookup_insert_eq. intros [= <-]. simpl.
           fold (statements.votes_of id (store w)).
           by rewrite votes_of_unreferenced.
        -- rewrite lookup_insert_ne by done. apply Hcount.
    + split.
      * intros v Hv. rewrite committed_polls.
        assert (∃ r', polls (store w) !! poll_id v = Some r'
                      ∧ (0 ≤ option_index v)%Qc
                      ∧ (option_index v
                         < Qc_of_Z (Z.of_nat (length (options r'))))%Qc)
          as (r' & Hr' & Hbounds).
        { unfold committed in Hv. simpl in Hv.
          apply elem_of_app in Hv as [Hv|Hv%list_elem_of_singleton];
            [by apply Href|]. subst v. by exists r. }
        destruct (decide (p = poll_id v)) as [->|Hne].
        -- rewrite lookup_alter_eq, Hr'. by eexists.
        -- rewrite lookup_alter_ne by done. by eexists.
      * intros id r'. rewrite committed_polls, votes_of_committed.
        destruct (decide (p = id)) as [<-|Hne].
        -- rewrite lookup_alter_eq, Hrow. intros [= <-]. simpl.
           rewrite length_app. simpl. rewrite (Hcount p r Hrow). lia.
        -- rewrite lookup_alter_ne by done. rewrite app_nil_r. apply Hcount.
Qed.

(** C10.  In every state the server can reach, the [vote_count] column of
    each poll row equals the number of vote rows of that poll: the insert of
    the row and the increment of the counter happen in one transaction of
    [addVote], and nothing else writes either. *)
Theorem vote_count_is_row_count (w : world) (id : string) (r : poll_row) :
  reachable w →
  polls (store w) !! id = Some r →
  vote_count r = Z.of_nat (length (statements.votes_of id (store w))).
Proof. intros Hw. by apply reachable_invariants. Qed.

Lemma vote_count_is_row_count_witness :
  vote_count (PollRow "Colour?" ["Red"; "Blue"] 1000 1)
  = Z.of_nat (length (statements.votes_of "ABCDEFGH" (store fractional_run))).
Proof.
  apply (vote_count_is_row_count fractional_run "ABCDEFGH").
  - unfold fractional_run, poll_created.
    apply reachable_step, reachable_step, reachable_init.
  - vm_compute. reflexivity.
Defined.

(* ===================================================================== *)
(** ** What the tally counts *)
(* ===================================================================== *)

Lemma is_array_index_of_nat (i : nat) :
  is_array_index (Qc_of_Z (Z.of_nat i)) = true.
Proof.
  unfold is_array_index. apply andb_true_iff.
  split; apply bool_decide_eq_true; simpl; [done|lia].
Qed.

Lemma is_array_index_inv (k : Qc) :
  is_array_index k = true →
  k = Qc_of_Z (Z.of_nat (Z.to_nat (Qnum (this k)))).
Proof.
  unfold is_array_index. intros [Hden Hnum]%andb_true_iff.
  apply bool_decide_eq_true in Hden, Hnum.
  apply Qc_is_canon. destruct k as [[num den] Hcanon]. simpl in *.
  subst den. rewrite Z2Nat.id by done. reflexivity.
Qed.

Lemma tally_step_length a vote :
  length (elems (dbHelpers.tally_step a vote)) = length (elems a).
Proof.
  unfold dbHelpers.tally_step, array_assign.
  case_bool_decide; [|done]. destruct (is_array_index vote.1); simpl; [|done].
  apply length_insert.
Qed.

Lemma tally_step_lookup a k c (i : nat) :
  (i < length (elems a))%nat →
  elems (dbHelpers.tally_step a (k, c)) !! i
  = if decide (k = Qc_of_Z (Z.of_nat i)) then Some c else elems a !! i.
Proof.
  intros Hi. unfold dbHelpers.tally_step, array_assign. simpl.
  destruct (decide (k = Qc_of_Z (Z.of_nat i))) as [->|Hne].
  - rewrite bool_decide_eq_true_2 by (apply (proj1 (Z2Qc_inj_lt _ _)); lia).
    rewrite is_array_index_of_nat. simpl. rewrite Nat2Z.id.
    by apply list_lookup_insert_eq.
  - case_bool_decide; [|done].
    destruct (is_array_index k) eqn:Hk; simpl; [|done].
    apply list_lookup_insert_ne. intros <-.
    by apply Hne, is_array_index_inv.
Qed.

Lemma tally_fold_lookup (c : Qc → Z) (ks : list Qc) a (i : nat) :
  NoDup ks →
  (i < length (elems a))%nat →
  elems (foldl dbHelpers.tally_step a ((λ k, (k, c k)) <$> ks)) !! i
  = if decide (Qc_of_Z (Z.of_nat i) ∈ ks) then Some (c (Qc_of_Z (Z.of_nat i)))
    else elems a !! i.
Proof.
  intros Hnd. revert a. induction Hnd as [|k ks Hk _ IH]; intros a Hi; simpl.
  - done.
  - rewrite IH by (by rewrite tally_step_length).
    rewrite tally_step_lookup by done.
    destruct (decide (k = Qc_of_Z (Z.of_nat i))) as [->|Hne].
    + rewrite decide_False by done. rewrite decide_True; [done|by left].
    + destruct (decide (Qc_of_Z (Z.of_nat i) ∈ ks)) as [Hin|Hout].
      * rewrite decide_True; [done|by right].
      * rewrite decide_False; [done|].
        intros [?|?]%elem_of_cons; by auto.
Qed.

Lemma tally_fold_length ks a :
  length (elems (foldl dbHelpers.tally_step a ks)) = length (elems a).
Proof.
  revert a. induction ks as [|k ks IH]; intros a; simpl; [done|].
  by rewrite IH, tally_step_length.
Qed.

Lemma poll_object_elems d pollId r :
  elems (p_results (poll_object d pollId r))
  = (λ i : nat, count_index (statements.votes_of pollId d) (Qc_of_Z (Z.of_nat i)))
      <$> seq 0 (length (options r)).
Proof.
  unfold poll_object, statements.getVotesByPoll. cbn [p_results].
  set (rows := statements.votes_of pollId d).
  set (zeros := JsArray ((λ _, 0) <$> options r) []).
  assert (Hzeros : length (elems zeros) = length (options r))
    by apply length_fmap.
  apply (list_eq_same_length _ _ (length (options r))).
  - by rewrite length_fmap, length_seq.
  - by rewrite tally_fold_length.
  - intros i x y Hi.
    rewrite (tally_fold_lookup (count_index rows)), list_lookup_fmap,
      lookup_seq_lt; [|done|apply NoDup_remove_dups|by rewrite Hzeros].
    cbn [fmap option_fmap option_map]. intros Hx [= <-].
    destruct (decide (Qc_of_Z (Z.of_nat i) ∈ remove_dups (option_index <$> rows)))
      as [_|Hout]; [congruence|].
    unfold zeros in Hx. cbn [elems] in Hx. rewrite list_lookup_fmap in Hx.
    destruct (options r !! i); [|done]. injection Hx as <-.
    unfold count_index. rewrite filter_none; [done|].
    intros v Hv Hidx. apply Hout. apply elem_of_remove_dups.
    rewrite <- Hidx. by apply list_elem_of_fmap_2.
Qed.

Lemma foldl_add_shift (a : Z) (l : list Z) :
  foldl Z.add a l = a + sum_results l.
Proof.
  unfold sum_results. revert a. induction l as [|x l IH]; intros a; simpl.
  - lia.
  - rewrite (IH (a + x)), (IH (0 + x)). lia.
Qed.

Lemma sum_results_cons x l : sum_results (x :: l) = x + sum_results l.
Proof. unfold sum_results at 1. simpl. apply foldl_add_shift. Qed.

Lemma sum_results_pointwise {A} (f g : A → Z) (l : list A) :
  sum_results ((λ i, f i + g i) <$> l)
  = sum_results (f <$> l) + sum_results (g <$> l).
Proof.
  induction l as [|x l IH]; [done|].
  rewrite !fmap_cons, !sum_results_cons, IH. lia.
Qed.

(** Among distinct candidate positions at most one equals the key. *)
Lemma sum_indicator (k : Qc) (l : list nat) :
  NoDup l →
  sum_results ((λ i : nat, if decide (k = Qc_of_Z (Z.of_nat i)) then 1 else 0) <$> l)
  = if decide (Exists (λ i : nat, k = Qc_of_Z (Z.of_nat i)) l) then 1 else 0.
Proof.
  induction 1 as [|j l Hj _ IH].
  - rewrite decide_False; [done|]. by intros ?%Exists_nil.
  - rewrite fmap_cons, sum_results_cons, IH.
    destruct (decide (k = Qc_of_Z (Z.of_nat j))) as [->|Hne].
    + rewrite decide_False.
      * rewrite decide_True; [done|]. by left.
      * intros (i & Hi & Heq)%Exists_exists.
        apply Z2Qc_inj, Nat2Z.inj in Heq. by subst i.
    + destruct (decide (Exists (λ i : nat, k = Qc_of_Z (Z.of_nat i)) l))
        as [Hsome|Hnone].
      * rewrite decide_True; [done|]. by right.
      * rewrite decide_False; [done|].
        intros [?|?]%Exists_cons; by auto.
Qed.

Lemma counted_spec (n : nat) (k : Qc) :
  counted n k = true ↔ Exists (λ i : nat, k = Qc_of_Z (Z.of_nat i)) (seq 0 n).
Proof.
  unfold counted. rewrite andb_true_iff, bool_decide_eq_true, Exists_exists.
  split.
  - intros [Hlt Hidx]. apply is_array_index_inv in Hidx.
    exists (Z.to_nat (Qnum (this k))). split; [|done].
    rewrite Hidx in Hlt. apply Z2Qc_inj_lt in Hlt.
    apply elem_of_seq. lia.
  - intros (i & Hi%elem_of_seq & ->). split.
    + apply (proj1 (Z2Qc_inj_lt _ _)). lia.
    + apply is_array_index_of_nat.
Qed.

Lemma count_index_sum (rows : list vote_row) (n : nat) :
  sum_results ((λ i : nat, count_index rows (Qc_of_Z (Z.of_nat i))) <$> seq 0 n)
  = Z.of_nat (length (filter (λ v, counted n (option_index v) = true) rows)).
Proof.
  induction rows as [|v rows IH].
  - unfold count_index. simpl. generalize (seq 0 n). intros l.
    induction l as [|i l IHl]; [done|].
    by rewrite fmap_cons, sum_results_cons, IHl.
  - rewrite filter_cons.
    transitivity
      (sum_results ((λ i : nat,
          (if decide (option_index v = Qc_of_Z (Z.of_nat i)) then 1 else 0)
          + count_index rows (Qc_of_Z (Z.of_nat i))) <$> seq 0 n)).
    { f_equal. apply list_fmap_ext. intros _ i _. unfold count_index.
      rewrite filter_cons.
      destruct (decide (option_index v = Qc_of_Z (Z.of_nat i))); simpl; lia. }
    rewrite sum_results_pointwise, IH, sum_indicator by apply NoDup_seq.
    destruct (decide (counted n (option_index v) = true)) as [Hc|Hc].
    + rewrite decide_True by (by apply counted_spec). simpl. lia.
    + rewrite decide_False by (by rewrite <- counted_spec). lia.
Qed.

(** The sum of the tally is the number of the poll's votes whose index is an
    array index below the number of options. *)
Lemma tally_sum_counts_array_indices d pollId r :
  polls d !! pollId = Some r →
  sum_results <$> tally d pollId
  = Some (Z.of_nat (length (filter
            (λ v, counted (length (options r)) (option_index v) = true)
            (statements.votes_of pollId d)))).
Proof.
  intros Hrow. rewrite tally_lookup, Hrow.
  cbn [fmap option_fmap option_map].
  by rewrite poll_object_elems, count_index_sum.
Qed.

Lemma filter_ext_in {A} (P Q : A → Prop)
    `{∀ x, Decision (P x)} `{∀ x, Decision (Q x)} (l : list A) :
  (∀ x, x ∈ l → (P x ↔ Q x)) → filter P l = filter Q l.
Proof.
  induction l as [|x l IH]; intros Hl; [done|].
  rewrite !filter_cons, IH by (intros y Hy; apply Hl; by right).
  destruct (Hl x) as [HPQ HQP]; [by left|].
  destruct (decide (P x)), (decide (Q x)); tauto.
Qed.

Lemma filter_all {A} (P : A → Prop) `{∀ x, Decision (P x)} (l : list A) :
  Forall P l → filter P l = l.
Proof.
  induction 1 as [|x l HP _ IH]; [done|].
  by rewrite filter_cons, decide_True, IH.
Qed.

(** In a state the server can reach every stored index is below the number of
    options, so the tally misses exactly the votes whose index is not an
    integer. *)
Lemma reachable_tally_sum w id r :
  reachable w →
  polls (store w) !! id = Some r →
  sum_results <$> tally (store w) id
  = Some (Z.of_nat (length (filter
            (λ v, is_array_index (option_index v) = true)
            (statements.votes_of id (store w))))).
Proof.
  intros [Hwithin _]%reachable_invariants Hrow.
  rewrite (tally_sum_counts_array_indices _ _ _ Hrow). do 3 f_equal.
  apply filter_ext_in. intros v [Hid Hv]%list_elem_of_filter.
  destruct (Hwithin v Hv) as (r' & Hr' & _ & Hlt).
  rewrite Hid, Hrow in Hr'. injection Hr' as <-.
  unfold counted. by rewrite (bool_decide_eq_true_2 _ Hlt).
Qed.

(** X25.  In a state the server can reach, while every vote of a poll has
    an integer index, the tally sums to the number of its votes and to its
    [vote_count]. *)
Lemma integral_votes_all_counted w id r :
  reachable w →
  polls (store w) !! id = Some r →
  Forall (λ v, is_array_index (option_index v) = true)
         (statements.votes_of id (store w)) →
  sum_results <$> tally (store w) id
  = Some (Z.of_nat (length (statements.votes_of id (store w))))
  ∧ sum_results <$> tally (store w) id = Some (vote_count r).
Proof.
  intros Hw Hrow Hint.
  destruct (reachable_invariants w Hw) as [_ Hcount].
  rewrite (Hcount id r Hrow), (reachable_tally_sum w id r Hw Hrow).
  by rewrite (filter_all _ _ Hint).
Qed.

(* ===================================================================== *)
(** ** Option indices that are not integers *)
(* ===================================================================== *)

(** C4.  A vote whose [optionIndex] is 1/2 is not rejected as malformed:
    [validateVoteData] accepts it, every admission check passes, the route
    answers 200 and a vote row with [option_index] 1/2 is committed. *)
Theorem fractional_index_is_committed :
  validateVoteData (JS.field (body fractional_vote) "pollId")
                   (JS.field (body fractional_vote) "optionIndex")
                   (JS.field (body fractional_vote) "fingerprint")
  = VoteValid "ABCDEFGH" half "fp-a"
  ∧ (post_votes false 2000 2001 fractional_vote poll_created).1
    = Response 200 (VoteRecorded [0; 0] 0)
  ∧ votes (store (post_votes false 2000 2001 fractional_vote poll_created).2)
    = [VoteRow 1 "ABCDEFGH" half "10.0.0.1" "fp-a" 2001].
Proof. vm_compute. done. Qed.

(** C2.  After that vote the server is in a reachable state with one
    committed vote row for the poll and [vote_count] 1, while the tally of
    [getPoll] is [0; 0] and sums to 0: the vote is lost from the tally.  The
    count went to the property "0.5" of the results array, which is not one of
    its elements. *)
Theorem fractional_vote_lost_from_tally :
  isValidPollId (JS.Str "ABCDEFGH") = true
  ∧ reachable fractional_run
  ∧ length (statements.votes_of "ABCDEFGH" (store fractional_run)) = 1%nat
  ∧ vote_count <$> polls (store fractional_run) !! "ABCDEFGH" = Some 1
  ∧ tally (store fractional_run) "ABCDEFGH" = Some [0; 0]
  ∧ (sum_results <$> tally (store fractional_run) "ABCDEFGH") = Some 0
  ∧ (props ∘ p_results <$> (dbHelpers.getPoll "ABCDEFGH" fractional_run).1)
    = Some [(half, 1)].
Proof.
  split; [by vm_compute|]. split.
  - unfold fractional_run, poll_created.
    apply reachable_step, reachable_step, reachable_init.
  - vm_compute. done.
Qed.

(* ===================================================================== *)
(** ** Resync on join *)
(* ===================================================================== *)

Lemma present_Some s : s ≠ "" → JS.present (Some s) = true.
Proof. intros Hs. simpl. by rewrite bool_decide_eq_false_2. Qed.

Lemma on_join_poll_run sid pollId w :
  pollId ≠ "" →
  on_join_poll sid (Some pollId) w =
  let joined := <[room_of pollId := {[sid]} ∪ members (room_of pollId) w]>
                  (rooms w) in
  match polls (store w) !! pollId with
  | Some r =>
      let results := elems (p_results (poll_object (store w) pollId r)) in
      (tt, World (store w) joined
                 (outbox w ++ [Delivery sid
                    (PollDataEv pollId (question r) (options r) results
                                (sum_results results))])
                 (trace w ++ [StGetPoll; StGetVotesByPoll]))
  | None => (tt, World (store w) joined (outbox w) (trace w ++ [StGetPoll]))
  end.
Proof.
  intros Hs. unfold on_join_poll. rewrite (present_Some _ Hs). cbn [negb default from_option id].
  unfold mbind, M_bind, socket_join. rewrite getPoll_run. cbn [store].
  by destruct (polls (store w) !! pollId).
Qed.

(** C6, counterexample.  Joining the room of a poll id that names no poll
    puts the connection in the room and sends it nothing. *)
Lemma join_unknown_poll_sends_nothing :
  let w' := (on_join_poll 7 (Some "ZZZZZZZZ") (World red_blue ∅ [] [])).2 in
  isValidPollId (JS.Str "ZZZZZZZZ") = true
  ∧ elements (members (room_of "ZZZZZZZZ") w') = [7%nat]
  ∧ outbox w' = [].
Proof. vm_compute. done. Qed.

(** C6, amended.  A [join-poll] with a non-empty id of a stored poll puts the
    connection in the poll's room and sends it, and only it, one [poll-data]
    snapshot with the stored question and options, a tally that holds for each
    option, in order, the number of vote rows committed for that option at
    that moment, and the sum of that tally as total.  With an id that names no
    poll the connection joins the room and nothing is sent; with a missing or
    empty id nothing happens at all.  The store is never changed. *)
Theorem join_poll_resync (sid : nat) (pollId : string) (w : world) :
  pollId ≠ "" →
  let w' := (on_join_poll sid (Some pollId) w).2 in
  store w' = store w
  ∧ sid ∈ members (room_of pollId) w'
  ∧ (∀ r, polls (store w) !! pollId = Some r →
          ∃ results,
            length results = length (options r)
            ∧ (∀ i : nat, (i < length (options r))%nat →
                 results !! i
                 = Some (count_index (statements.votes_of pollId (store w))
                                     (Qc_of_Z (Z.of_nat i))))
            ∧ outbox w' = outbox w
                ++ [Delivery sid (PollDataEv pollId (question r) (options r)
                                             results (sum_results results))])
  ∧ (polls (store w) !! pollId = None → outbox w' = outbox w)
  ∧ (on_join_poll sid None w).2 = w
  ∧ (on_join_poll sid (Some "") w).2 = w.
Proof.
  intros Hs. cbn zeta. rewrite (on_join_poll_run _ _ _ Hs). cbn zeta.
  assert (Hin : sid ∈ default ∅
            (<[room_of pollId := {[sid]} ∪ members (room_of pollId) w]>
               (rooms w) !! room_of pollId)).
  { rewrite lookup_insert_eq. simpl. set_solver. }
  destruct (polls (store w) !! pollId) as [r|] eqn:Hrow; cbn [snd store outbox];
    (split_and!; [done|exact Hin| | |done|done]).
  - intros r' [= <-]. eexists. split_and!; [| |done].
    + by rewrite poll_object_elems, length_fmap, length_seq.
    + intros i Hi. rewrite poll_object_elems, list_lookup_fmap.
      by rewrite lookup_seq_lt.
  - done.
  - done.
  - done.
Qed.

Lemma join_poll_resync_witness :
  let w' := (on_join_poll 7 (Some "ABCDEFGH") after_first_vote).2 in
  outbox w' = outbox after_first_vote
              ++ [Delivery 7 (PollDataEv "ABCDEFGH" "Colour?" ["Red"; "Blue"]
                                         [1; 0] 1)].
Proof.
  intros w'.
  assert (Hs : "ABCDEFGH" ≠ "") by discriminate.
  destruct (join_poll_resync 7 "ABCDEFGH" after_first_vote Hs)
    as (_ & _ & Hsnap & _).
  destruct (Hsnap (PollRow "Colour?" ["Red"; "Blue"] 1000 1))
    as (results & Hlen & Hcounts & Hout); [vm_compute; reflexivity|].
  destruct results as [|red [|blue [|]]]; try discriminate Hlen.
  pose proof (Hcounts 0%nat) as Hred. pose proof (Hcounts 1%nat) as Hblue.
  vm_compute in Hred, Hblue.
  injection (Hred (le_S _ _ (le_n _))) as ->.
  injection (Hblue (le_n _)) as ->.
  exact Hout.
Defined.

(* ===================================================================== *)
(** ** Broadcast of an accepted vote *)
(* ===================================================================== *)

Lemma deliveries_to_fanout (ev : socket_event) (sid : nat) (l : list nat) :
  NoDup l →
  deliveries_to sid ((λ s, Delivery s ev) <$> l)
  = if decide (sid ∈ l) then [Delivery sid ev] else [].
Proof.
  unfold deliveries_to.
  induction 1 as [|s l Hs _ IH]; [done|].
  rewrite fmap_cons, filter_cons. simpl. rewrite IH.
  destruct (decide (s = sid)) as [->|Hne];
    destruct (decide (sid ∈ l)) as [Hin|Hout]; [done| | |].
  - rewrite decide_True; [done|by left].
  - rewrite decide_True; [done|by right].
  - rewrite decide_False; [done|].
    intros [?|?]%elem_of_cons; by auto.
Qed.

Lemma on_vote_submitted_run sid pollId w :
  pollId ≠ "" →
  on_vote_submitted sid (Some pollId) w =
  match polls (store w) !! pollId with
  | Some r =>
      let results := elems (p_results (poll_object (store w) pollId r)) in
      (tt, World (store w) (rooms w)
                 (outbox w ++ ((λ s, Delivery s (PollUpdatedEv results
                                                   (sum_results results)))
                               <$> elements (members (room_of pollId) w)))
                 (trace w ++ [StGetPoll; StGetVotesByPoll]))
  | None => (tt, logged [StGetPoll] w)
  end.
Proof.
  intros Hs. unfold on_vote_submitted.
  rewrite (present_Some _ Hs). cbn [negb default from_option id].
  unfold mbind, M_bind. rewrite getPoll_run.
  by destruct (polls (store w) !! pollId).
Qed.

(** C3, counterexample.  Connection 7 is in the room of the poll; a vote is
    accepted with status 200; and the outbox after the request holds what it
    held before, the snapshot connection 7 got when it joined: the route
    sent no [poll-updated] to anybody. *)
Lemma accepted_vote_sends_no_broadcast :
  let run := post_votes false 2000 2001
               (vote_request "10.0.0.1" "ABCDEFGH" (Qc_of_Z 0) "fp-a")
               viewer_joined in
  run.1 = Response 200 (VoteRecorded [1; 0] 1)
  ∧ elements (members (room_of "ABCDEFGH") run.2) = [7%nat]
  ∧ outbox run.2 = outbox viewer_joined
  ∧ outbox run.2
    = [Delivery 7 (PollDataEv "ABCDEFGH" "Colour?" ["Red"; "Blue"] [0; 0] 0)].
Proof. vm_compute. done. Qed.

(** C3, amended.  The vote route never emits: every run leaves the rooms and
    the outbox as they were, and the tally of a 200 answer is the tally
    [getPoll] reports for the store after the commit.  The broadcast is a
    separate step, run when a [vote-submitted] event arrives: for a non-empty
    id of a stored poll it reads the poll again at that moment and hands each
    connection then in the poll's room exactly one [poll-updated] with that
    tally and its sum, and nothing to any other connection; for an id that
    names no poll it sends nothing. *)
Theorem broadcast_is_a_separate_read :
  (∀ limited tWindow tCommit req w,
      outbox (post_votes limited tWindow tCommit req w).2 = outbox w
      ∧ rooms (post_votes limited tWindow tCommit req w).2 = rooms w)
  ∧ (∀ limited tWindow tCommit req w results total,
      payload (post_votes limited tWindow tCommit req w).1
      = VoteRecorded results total →
      ∃ pollId,
        JS.field (body req) "pollId" = JS.Str pollId
        ∧ tally (store (post_votes limited tWindow tCommit req w).2) pollId
          = Some results
        ∧ total = sum_results results)
  ∧ (∀ sid pollId w r,
      pollId ≠ "" →
      polls (store w) !! pollId = Some r →
      ∃ results sent,
        tally (store w) pollId = Some results
        ∧ (on_vote_submitted sid (Some pollId) w).2
          = World (store w) (rooms w) (outbox w ++ sent)
                  (trace w ++ [StGetPoll; StGetVotesByPoll])
        ∧ ∀ s, deliveries_to s sent
               = if decide (s ∈ members (room_of pollId) w)
                 then [Delivery s (PollUpdatedEv results (sum_results results))]
                 else [])
  ∧ (∀ sid pollId w,
      pollId ≠ "" →
      polls (store w) !! pollId = None →
      outbox (on_vote_submitted sid (Some pollId) w).2 = outbox w).
Proof.
  split_and!.
  - intros limited tWindow tCommit req w.
    destruct (post_votes_cases limited tWindow tCommit req w)
      as [(code&err&ss&->&_)|(p&n&f&r&_&_&_&_&Hrun)]; [done|].
    cbn zeta in Hrun. by rewrite Hrun.
  - intros limited tWindow tCommit req w results total.
    destruct (post_votes_cases limited tWindow tCommit req w)
      as [(code&err&ss&->&_)|(p&n&f&r&Hvalid&Hrow&_&_&Hrun)]; [done|].
    cbn zeta in Hrun. rewrite Hrun. simpl. intros [= <- <-].
    destruct (validateVoteData_valid _ _ _ _ _ _ Hvalid) as (Hp&_).
    exists p. split_and!; [done| |done].
    by rewrite tally_lookup, (committed_lookup _ _ _ _ _ _ _ Hrow).
  - intros sid pollId w r Hs Hrow.
    rewrite (on_vote_submitted_run _ _ _ Hs), Hrow. cbn zeta.
    eexists _, _. split_and!; [by rewrite tally_lookup, Hrow|done|].
    intros s. rewrite deliveries_to_fanout by apply NoDup_elements.
    destruct (decide (s ∈ members (room_of pollId) w)) as [Hin|Hout].
    + rewrite decide_True; [done|by apply elem_of_elements].
    + rewrite decide_False; [done|by rewrite elem_of_elements].
  - intros sid pollId w Hs Hrow.
    by rewrite (on_vote_submitted_run _ _ _ Hs), Hrow.
Qed.

Lemma broadcast_is_a_separate_read_witness :
  ∃ results sent,
    tally (store viewer_joined) "ABCDEFGH" = Some results
    ∧ (on_vote_submitted 9 (Some "ABCDEFGH") viewer_joined).2
      = World (store viewer_joined) (rooms viewer_joined)
              (outbox viewer_joined ++ sent)
              (trace viewer_joined ++ [StGetPoll; StGetVotesByPoll])
    ∧ ∀ s, deliveries_to s sent
           = if decide (s ∈ members (room_of "ABCDEFGH") viewer_joined)
             then [Delivery s (PollUpdatedEv results (sum_results results))]
             else [].
Proof.
  apply (proj1 (proj2 (proj2 broadcast_is_a_separate_read))
           9%nat "ABCDEFGH" viewer_joined
           (PollRow "Colour?" ["Red"; "Blue"] 1000 0)).
  - discriminate.
  - vm_compute. reflexivity.
Defined.

(* ===================================================================== *)
(** * Further properties of the code *)
(* ===================================================================== *)

(** ** Strings *)

Lemma append_cons c s t : String c s +:+ t = String c (s +:+ t).
Proof. done. Qed.

Lemma string_mem_app c s t :
  string_mem c (s +:+ t) = string_mem c s || string_mem c t.
Proof.
  induction s as [|d s IH]; [done|].
  rewrite append_cons. simpl. rewrite IH. by rewrite orb_assoc.
Qed.

Lemma string_mem_rev_app c s t :
  string_mem c (String.rev_app s t) = string_mem c s || string_mem c t.
Proof.
  revert t. induction s as [|d s IH]; intros t; simpl; [done|].
  rewrite IH. simpl. destruct (bool_decide (c = d)), (string_mem c s); done.
Qed.

Lemma string_mem_rev c s : string_mem c (String.rev s) = string_mem c s.
Proof. unfold String.rev. rewrite string_mem_rev_app. simpl. apply orb_false_r. Qed.

Lemma string_mem_trim_start c s :
  string_mem c s = false → string_mem c (JS.trim_start s) = false.
Proof.
  induction s as [|d s IH]; simpl; [done|].
  intros [Hd Hs]%orb_false_iff.
  destruct (JS.is_space d); [by apply IH|]. simpl. by rewrite Hd, Hs.
Qed.

Lemma string_mem_trim c s :
  string_mem c s = false → string_mem c (JS.trim s) = false.
Proof.
  intros Hs. unfold JS.trim. rewrite string_mem_rev.
  apply string_mem_trim_start. rewrite string_mem_rev.
  by apply string_mem_trim_start.
Qed.

Lemma string_mem_substring c n m s :
  string_mem c s = false → string_mem c (String.substring n m s) = false.
Proof.
  revert n m. induction s as [|d s IH]; intros n m; simpl.
  - by destruct n, m.
  - intros [Hd Hs]%orb_false_iff.
    destruct n as [|n]; [destruct m as [|m]|]; simpl; [done| |by apply IH].
    rewrite Hd. by apply IH.
Qed.

Lemma length_substring0 n s : (String.length (JS.substring0 n s) ≤ n)%nat.
Proof.
  unfold JS.substring0. revert n. induction s as [|d s IH]; intros [|n]; simpl;
    try lia. specialize (IH n). lia.
Qed.

Lemma string_mem_replace_all_other d c by_ s :
  string_mem d by_ = false → string_mem d s = false →
  string_mem d (JS.replace_all c by_ s) = false.
Proof.
  intros Hby. induction s as [|e s IH]; simpl; [done|].
  intros [He Hs]%orb_false_iff. destruct (bool_decide (e = c)).
  - rewrite string_mem_app, Hby. by apply IH.
  - simpl. rewrite He. by apply IH.
Qed.

Lemma string_mem_replace_all_same c by_ s :
  string_mem c by_ = false → string_mem c (JS.replace_all c by_ s) = false.
Proof.
  intros Hby. induction s as [|e s IH]; simpl; [done|].
  destruct (decide (e = c)) as [He|He].
  - rewrite (bool_decide_eq_true_2 _ He). by rewrite string_mem_app, Hby.
  - rewrite (bool_decide_eq_false_2 _ He). simpl.
    rewrite IH, orb_false_r. apply bool_decide_eq_false. congruence.
Qed.

(** ** sanitizeInput *)

(** X1.  Whatever it is given, [sanitizeInput] returns a string of at most
    500 code units that holds none of the characters [<], [>], double quote,
    single quote and [/]. *)
Theorem sanitizeInput_bounded_and_markup_free (v : JS.value) :
  (String.length (sanitizeInput v) ≤ 500)%nat ∧ markup_free (sanitizeInput v).
Proof.
  unfold sanitizeInput. destruct v as [| | | |str| |];
    try (split; [simpl; lia|by repeat constructor]).
  split; [apply length_substring0|].
  unfold markup_free, markup, JS.substring0.
  repeat apply Forall_cons_2; try apply Forall_nil_2;
    apply string_mem_substring, string_mem_trim;
    repeat first
      [ by apply string_mem_replace_all_same
      | apply string_mem_replace_all_other; [done|] ].
Qed.

Lemma string_forall_app p s t :
  string_forall p (s +:+ t) = string_forall p s && string_forall p t.
Proof.
  induction s as [|d s IH]; [done|].
  rewrite append_cons. simpl. rewrite IH. by rewrite andb_assoc.
Qed.

Lemma string_forall_rev_app p s t :
  string_forall p (String.rev_app s t) = string_forall p s && string_forall p t.
Proof.
  revert t. induction s as [|d s IH]; intros t; simpl; [done|].
  rewrite IH. simpl. destruct (p d), (string_forall p s); done.
Qed.

Lemma string_forall_rev p s : string_forall p (String.rev s) = string_forall p s.
Proof.
  unfold String.rev. rewrite string_forall_rev_app. simpl. apply andb_true_r.
Qed.

Lemma rev_app_empty s t : String.rev_app s t = "" → s = "" ∧ t = "".
Proof.
  revert t. induction s as [|d s IH]; intros t; simpl; [done|].
  intros [_ [=]]%IH.
Qed.

Lemma trim_start_empty s :
  JS.trim_start s = "" ↔ string_forall JS.is_space s = true.
Proof.
  induction s as [|d s IH]; simpl; [done|].
  destruct (JS.is_space d); simpl; [done|]. split; discriminate.
Qed.

Lemma all_space_trim_start s :
  string_forall JS.is_space (JS.trim_start s) = string_forall JS.is_space s.
Proof.
  induction s as [|d s IH]; simpl; [done|].
  destruct (JS.is_space d) eqn:Hd; simpl; [done|]. by rewrite Hd.
Qed.

(** [trim] leaves nothing exactly of the strings that are all white space. *)
Lemma trim_empty s : JS.trim s = "" ↔ string_forall JS.is_space s = true.
Proof.
  unfold JS.trim. split.
  - unfold String.rev at 1. intros [Hrev _]%rev_app_empty.
    apply trim_start_empty in Hrev.
    by rewrite string_forall_rev, all_space_trim_start in Hrev.
  - intros Hs. apply trim_start_empty in Hs. by rewrite Hs.
Qed.

Lemma all_space_replace_all c by_ s :
  string_forall JS.is_space by_ = false →
  string_forall JS.is_space (JS.replace_all c by_ s) = true →
  string_forall JS.is_space s = true.
Proof.
  intros Hby. induction s as [|e s IH]; simpl; [done|].
  destruct (bool_decide (e = c)).
  - by rewrite string_forall_app, Hby.
  - simpl. intros [-> Hs]%andb_true_iff. by apply IH.
Qed.

Lemma substring0_empty n s : JS.substring0 (S n) s = "" → s = "".
Proof. by destruct s. Qed.

(** Sanitising cannot empty a string that has more than white space. *)
Lemma sanitizeInput_nonempty s :
  JS.trim s ≠ "" → sanitizeInput (JS.Str s) ≠ "".
Proof.
  intros Hs Hempty. apply Hs. unfold sanitizeInput in Hempty.
  apply substring0_empty, trim_empty in Hempty. apply trim_empty.
  by do 5 (apply all_space_replace_all in Hempty; [|done]).
Qed.

Lemma stored_label_sanitizeInput s :
  JS.trim s ≠ "" → stored_label (sanitizeInput (JS.Str s)).
Proof.
  intros Hs. split; [by apply sanitizeInput_nonempty|].
  apply sanitizeInput_bounded_and_markup_free.
Qed.

Lemma validate_options_trim i opts :
  validate_options i opts = None →
  Forall (λ o, ∃ s, o = JS.Str s ∧ JS.trim s ≠ "") opts.
Proof.
  revert i. induction opts as [|o opts IH]; intros i; simpl; [by constructor|].
  destruct o as [| | | |s| |]; try discriminate.
  destruct (negb (JS.truthy (JS.Str s))); [discriminate|].
  cbn [orb]. case_bool_decide as Htrim; [discriminate|].
  case_bool_decide; [discriminate|]. intros Hrest.
  constructor; [|by eapply IH]. exists s. split; [done|].
  intros Hempty. apply Htrim. by rewrite Hempty.
Qed.

(** What [validatePollData] hands to [createPoll]. *)
Lemma validatePollData_sanitized q opts q' opts' now :
  validatePollData q opts = PollValid q' opts' →
  poll_well_formed (PollRow q' opts' now 0)
  ∧ ∃ items, opts = JS.Arr items ∧ length opts' = length items.
Proof.
  unfold validatePollData.
  destruct q as [| | | |s| |]; try discriminate.
  destruct (negb (JS.truthy (JS.Str s))); [discriminate|].
  cbn [orb]. case_bool_decide as Htrim; [discriminate|].
  case_bool_decide; [discriminate|].
  destruct opts as [| | | | |items|]; try discriminate.
  case_bool_decide as Hmin; [discriminate|].
  case_bool_decide as Hmax; [discriminate|].
  destruct (validate_options 0 items) eqn:Hitems; [discriminate|].
  intros [= <- <-]. split; [|exists items; by rewrite length_fmap].
  unfold poll_well_formed. cbn [question options]. split_and!.
  - apply stored_label_sanitizeInput. intros Hempty. apply Htrim.
    by rewrite Hempty.
  - rewrite length_fmap. lia.
  - rewrite length_fmap. lia.
  - apply Forall_fmap. eapply Forall_impl; [by eapply validate_options_trim|].
    intros o (t & -> & Ht). by apply stored_label_sanitizeInput.
Qed.

(** ** Steps of the server, in full *)

(** An accepted vote: what was checked and what was written. *)
Lemma post_votes_accepted limited tWindow tCommit req w :
  accepted (post_votes limited tWindow tCommit req w).1 = true →
  ∃ pollId n fp r,
    limited = false
    ∧ requireBody req = None
    ∧ validatePollId req = None
    ∧ validateVoteData (JS.field (body req) "pollId")
                       (JS.field (body req) "optionIndex")
                       (JS.field (body req) "fingerprint") = VoteValid pollId n fp
    ∧ polls (store w) !! pollId = Some r
    ∧ (0 ≤ n)%Qc ∧ (n < Qc_of_Z (Z.of_nat (length (options r))))%Qc
    ∧ statements.checkVoteByIP pollId (getClientIp req) (store w) = 0
    ∧ statements.checkVoteByFingerprint pollId fp (store w) = 0
    ∧ store (post_votes limited tWindow tCommit req w).2
      = committed (store w) pollId n (getClientIp req) fp tCommit.
Proof.
  unfold post_votes, voteLimiter.
  destruct limited; [done|].
  destruct (requireBody req) eqn:Hbody; [unfold requireBody in Hbody;
    case_bool_decide; [injection Hbody as <-; done|done]|].
  destruct (validatePollId req) eqn:Hid.
  { unfold validatePollId in Hid.
    destruct (negb (JS.truthy _)); [injection Hid as <-; done|].
    destruct (negb (isValidPollId _)); [injection Hid as <-; done|done]. }
  destruct (validateVoteData _ _ _) as [error|pollId n fp] eqn:Hvalid.
  { unfold post_votes_handler. by rewrite Hvalid. }
  destruct (polls (store w) !! pollId) as [r|] eqn:Hrow.
  2:{ unfold post_votes_handler. rewrite Hvalid.
      unfold mbind, M_bind. by rewrite getPoll_run, Hrow. }
  rewrite (post_votes_handler_run _ _ _ _ _ _ _ _ Hvalid Hrow). cbn zeta.
  destruct (validateVoteData_valid _ _ _ _ _ _ Hvalid) as (_&_&_&_&_&Hn).
  case_bool_decide as Hrange; [done|].
  case_bool_decide as Hip; [done|].
  case_bool_decide as Hfp; [done|].
  case_bool_decide as Hrecent; [done|]. intros _.
  exists pollId, n, fp, r. split_and!; try done.
  - by apply Qcnot_le_lt.
  - unfold statements.checkVoteByIP in *. lia.
  - unfold statements.checkVoteByFingerprint in *. lia.
Qed.

Lemma on_join_poll_store sid pollId w :
  store (on_join_poll sid pollId w).2 = store w.
Proof.
  unfold on_join_poll. destruct (negb (JS.present pollId)); [done|].
  unfold mbind, M_bind, socket_join. rewrite getPoll_run. simpl.
  by destruct (polls (store w) !! default "" pollId).
Qed.

Lemma on_vote_submitted_store sid pollId w :
  store (on_vote_submitted sid pollId w).2 = store w.
Proof.
  unfold on_vote_submitted. destruct (negb (JS.present pollId)); [done|].
  unfold mbind, M_bind. rewrite getPoll_run.
  by destruct (polls (store w) !! default "" pollId).
Qed.

Lemma on_leave_poll_store sid pollId w :
  store (on_leave_poll sid pollId w).2 = store w.
Proof. unfold on_leave_poll. by destruct (negb (JS.present pollId)). Qed.

(** What one input can do to the database, with what the routes checked
    before they wrote. *)
Lemma handle_step i w :
  store (handle i w) = store w
  ∨ (∃ id q opts now,
        polls (store w) !! id = None
        ∧ poll_well_formed (PollRow q opts now 0)
        ∧ store (handle i w)
          = Db (<[id := PollRow q opts now 0]> (polls (store w)))
               (votes (store w)))
  ∨ (∃ pollId n ip fp now r,
        polls (store w) !! pollId = Some r
        ∧ (0 ≤ n)%Qc ∧ (n < Qc_of_Z (Z.of_nat (length (options r))))%Qc
        ∧ statements.checkVoteByIP pollId ip (store w) = 0
        ∧ statements.checkVoteByFingerprint pollId fp (store w) = 0
        ∧ store (handle i w) = committed (store w) pollId n ip fp now).
Proof.
  destruct i as [limited generated now req|limited tWindow tCommit req
                |sid pollId|sid pollId|sid pollId|sid].
  - simpl. destruct (post_polls_cases limited generated now req w)
      as [(code&err&ss&->&_)|(q&opts&Hvalid&Hfresh&->)]; [by left|].
    right; left. exists generated, q, opts, now. split_and!; [done| |done].
    by eapply validatePollData_sanitized.
  - simpl.
    destruct (accepted (post_votes limited tWindow tCommit req w).1) eqn:Hacc.
    + destruct (post_votes_accepted _ _ _ _ _ Hacc)
        as (p&n&fp&r&_&_&_&_&Hrow&Hn&Hlt&Hip&Hfp&Hstore).
      right; right. by exists p, n, (getClientIp req), fp, tCommit, r.
    + left.
      destruct (post_votes_cases limited tWindow tCommit req w)
        as [(code&err&ss&Hrun&_)|(p&n&f&r&_&_&_&_&Hrun)];
        cbn zeta in Hrun; rewrite Hrun in *; [done|]. discriminate.
  - left. apply on_join_poll_store.
  - left. apply on_vote_submitted_store.
  - left. apply on_leave_poll_store.
  - by left.
Qed.

(** ** Stored polls *)

Lemma bumped_well_formed r :
  poll_well_formed r →
  poll_well_formed (PollRow (question r) (options r) (created_at r)
                            (vote_count r + 1)).
Proof. done. Qed.

(** X2.  In every state the server can reach, each stored poll has a
    non-empty question of at most 500 code units and between 2 and 10
    options, each non-empty and of at most 500 code units, and neither the
    question nor an option holds one of the characters [<], [>], double
    quote, single quote or [/]. *)
Theorem stored_polls_well_formed (w : world) (id : string) (r : poll_row) :
  reachable w →
  polls (store w) !! id = Some r →
  poll_well_formed r.
Proof.
  intros Hw. revert id r. induction Hw as [|i w _ IH]; intros id r.
  - simpl. by rewrite lookup_empty.
  - destruct (handle_step i w)
      as [->|[(id'&q&opts&now&_&Hwf&->)|(p&n&ip&fp&now&r0&Hrow&_&_&_&_&->)]].
    + apply IH.
    + simpl. destruct (decide (id' = id)) as [->|Hne].
      * rewrite lookup_insert_eq. by intros [= <-].
      * rewrite lookup_insert_ne by done. apply IH.
    + rewrite committed_polls. destruct (decide (p = id)) as [->|Hne].
      * rewrite lookup_alter_eq, Hrow. intros [= <-].
        apply bumped_well_formed. by eapply IH.
      * rewrite lookup_alter_ne by done. apply IH.
Qed.

Lemma stored_polls_well_formed_witness :
  poll_well_formed (PollRow "Colour?" ["Red"; "Blue"] 1000 1).
Proof.
  apply (stored_polls_well_formed fractional_run "ABCDEFGH").
  - unfold fractional_run, poll_created.
    apply reachable_step, reachable_step, reachable_init.
  - vm_compute. reflexivity.
Defined.

Lemma handle_all_snoc inputs i w :
  handle_all (inputs ++ [i]) w = handle i (handle_all inputs w).
Proof. unfold handle_all. by rewrite foldl_app. Qed.

(** X3.  Polls are never deleted and never edited: whatever inputs follow,
    a stored poll keeps its question, its options and its creation time, and
    its [vote_count] does not decrease. *)
Theorem polls_are_immutable
    (inputs : list input) (w : world) (id : string) (r : poll_row) :
  polls (store w) !! id = Some r →
  ∃ r', polls (store (handle_all inputs w)) !! id = Some r'
        ∧ question r' = question r
        ∧ options r' = options r
        ∧ created_at r' = created_at r
        ∧ vote_count r ≤ vote_count r'.
Proof.
  intros Hrow. induction inputs as [|i inputs IH] using rev_ind.
  - exists r. by split_and!.
  - destruct IH as (r1 & Hr1 & Hq & Ho & Hc & Hv).
    rewrite handle_all_snoc.
    destruct (handle_step i (handle_all inputs w))
      as [->|[(id'&q&opts&now&Hfresh&_&->)|(p&n&ip&fp&now&r0&Hp&_&_&_&_&->)]].
    + by exists r1.
    + exists r1. simpl. rewrite lookup_insert_ne; [done|]. congruence.
    + rewrite committed_polls. destruct (decide (p = id)) as [->|Hne].
      * rewrite lookup_alter_eq, Hr1. simpl. eexists. split; [done|].
        simpl. split_and!; [done..|lia].
      * exists r1. by rewrite lookup_alter_ne.
Qed.

Lemma polls_are_immutable_witness :
  ∃ r', polls (store (handle_all [PostVotes false 2000 2001 fractional_vote]
                                 poll_created)) !! "ABCDEFGH" = Some r'
        ∧ question r' = "Colour?"
        ∧ options r' = ["Red"; "Blue"]
        ∧ created_at r' = 1000
        ∧ 0 ≤ vote_count r'.
Proof.
  apply (polls_are_immutable [PostVotes false 2000 2001 fractional_vote]
           poll_created "ABCDEFGH" (PollRow "Colour?" ["Red"; "Blue"] 1000 0)).
  vm_compute. reflexivity.
Defined.

(** X4.  The vote table is append-only: whatever inputs are handled, the
    rows present before are still there, unchanged and in the same order, and
    each input adds at most one row. *)
Theorem votes_are_append_only (inputs : list input) (w : world) :
  votes (store w) `prefix_of` votes (store (handle_all inputs w))
  ∧ (length (votes (store (handle_all inputs w)))
     ≤ length (votes (store w)) + length inputs)%nat.
Proof.
  induction inputs as [|i inputs [IHp IHl]] using rev_ind;
    [split; [done|simpl; lia]|].
  rewrite handle_all_snoc, length_app. simpl.
  destruct (handle_step i (handle_all inputs w))
    as [->|[(id'&q&opts&now&_&_&->)|(p&n&ip&fp&now&r0&_&_&_&_&_&->)]]; simpl.
  - split; [done|lia].
  - split; [done|lia].
  - split; [by apply prefix_app_r|]. rewrite length_app. simpl. lia.
Qed.

(** ** One vote per voter *)

Lemma unused_address d pollId ip :
  statements.checkVoteByIP pollId ip d = 0 →
  (pollId, ip) ∉ address_key <$> votes d.
Proof.
  intros Hcount (v & [= Hp Hip] & Hv)%list_elem_of_fmap.
  assert (0 < statements.checkVoteByIP pollId ip d); [|lia].
  unfold statements.checkVoteByIP, statements.votes_of.
  apply (count_positive_Exists (λ v, poll_id v = pollId)
                               (λ v, ip_address v = ip)).
  apply Exists_exists. by exists v.
Qed.

Lemma unused_device d pollId fp :
  statements.checkVoteByFingerprint pollId fp d = 0 →
  (pollId, fp) ∉ device_key <$> votes d.
Proof.
  intros Hcount (v & [= Hp Hfp] & Hv)%list_elem_of_fmap.
  assert (0 < statements.checkVoteByFingerprint pollId fp d); [|lia].
  unfold statements.checkVoteByFingerprint, statements.votes_of.
  apply (count_positive_Exists (λ v, poll_id v = pollId)
                               (λ v, fingerprint v = fp)).
  apply Exists_exists. by exists v.
Qed.

Lemma votes_are_append_only_prefix inputs w :
  votes (store w) `prefix_of` votes (store (handle_all inputs w)).
Proof.
  induction inputs as [|i inputs IH] using rev_ind; [done|].
  rewrite handle_all_snoc.
  destruct (handle_step i (handle_all inputs w))
    as [->|[(id'&q&opts&now&_&_&->)|(p&n&ip&fp&now&r0&_&_&_&_&_&->)]];
    [done..|]. by apply prefix_app_r.
Qed.

(** X5.  In every state the server can reach, no two vote rows of one poll
    come from the same address, and no two of them carry the same
    fingerprint. *)
Theorem one_vote_per_address_and_device (w : world) :
  reachable w →
  NoDup (address_key <$> votes (store w))
  ∧ NoDup (device_key <$> votes (store w)).
Proof.
  induction 1 as [|i w _ [IHa IHd]].
  - split; constructor.
  - destruct (handle_step i w)
      as [->|[(id'&q&opts&now&_&_&->)|(p&n&ip&fp&now&r&_&_&_&Hip&Hfp&->)]];
      [done..|].
    unfold committed. simpl. rewrite !fmap_app. simpl.
    split; apply NoDup_app; (split_and!; [done| |apply NoDup_singleton]).
    + intros k Hk ->%list_elem_of_singleton.
      by apply (unused_address _ _ _ Hip).
    + intros k Hk ->%list_elem_of_singleton.
      by apply (unused_device _ _ _ Hfp).
Qed.

Lemma one_vote_per_address_and_device_witness :
  NoDup (address_key <$> votes (store fractional_run))
  ∧ NoDup (device_key <$> votes (store fractional_run)).
Proof.
  apply (one_vote_per_address_and_device fractional_run).
  unfold fractional_run, poll_created.
  apply reachable_step, reachable_step, reachable_init.
Defined.

(** X6.  Nobody votes twice.  Once a vote has been accepted, no later
    request for the same poll that comes from the same address or carries the
    same fingerprint is accepted, whatever the server handled in between and
    whatever option or clock the later request has. *)
Theorem no_second_vote
    (w : world) (tWindow1 tCommit1 : Z) (first : request)
    (between : list input)
    (limited : bool) (tWindow2 tCommit2 : Z) (second : request) :
  accepted (post_votes false tWindow1 tCommit1 first w).1 = true →
  JS.field (body second) "pollId" = JS.field (body first) "pollId" →
  getClientIp second = getClientIp first
  ∨ JS.field (body second) "fingerprint" = JS.field (body first) "fingerprint" →
  accepted (post_votes limited tWindow2 tCommit2 second
              (handle_all between
                 (post_votes false tWindow1 tCommit1 first w).2)).1 = false.
Proof.
  intros Hfirst Hpoll Hsame.
  destruct (post_votes_accepted _ _ _ _ _ Hfirst)
    as (p&n&fp&r&_&_&_&Hvalid1&_&_&_&_&_&Hstore).
  set (w1 := (post_votes false tWindow1 tCommit1 first w).2) in *.
  set (w2 := handle_all between w1).
  set (row := VoteRow (Z.of_nat (length (votes (store w))) + 1) p n
                      (getClientIp first) fp tCommit1).
  assert (Hrow : row ∈ votes (store w2)).
  { destruct (votes_are_append_only_prefix between w1) as [k Hk].
    unfold w2. rewrite Hk. apply elem_of_app. left. rewrite Hstore. unfold committed. simpl.
    apply elem_of_app. right. by apply list_elem_of_singleton. }
  destruct (accepted (post_votes limited tWindow2 tCommit2 second w2).1)
    eqn:Hsecond; [exfalso|done].
  destruct (post_votes_accepted _ _ _ _ _ Hsecond)
    as (p'&n'&fp'&r'&_&_&_&Hvalid2&_&_&_&Hip&Hfp&_).
  destruct (validateVoteData_valid _ _ _ _ _ _ Hvalid1) as (Hp1&_&Hf1&_).
  destruct (validateVoteData_valid _ _ _ _ _ _ Hvalid2) as (Hp2&_&Hf2&_).
  rewrite Hpoll, Hp1 in Hp2. injection Hp2 as <-.
  destruct Hsame as [Haddr|Hdev].
  - apply (unused_address _ _ _ Hip). rewrite Haddr.
    apply list_elem_of_fmap. by exists row.
  - rewrite Hdev, Hf1 in Hf2. injection Hf2 as <-.
    apply (unused_device _ _ _ Hfp).
    apply list_elem_of_fmap. by exists row.
Qed.

Lemma no_second_vote_witness :
  accepted (post_votes false 9000 9001
              (vote_request "10.0.0.1" "ABCDEFGH" (Qc_of_Z 1) "fp-other")
              (handle_all [JoinPoll 7 (Some "ABCDEFGH")]
                 (post_votes false 2000 2001
                    (vote_request "10.0.0.1" "ABCDEFGH" (Qc_of_Z 0) "fp-a")
                    (World red_blue ∅ [] [])).2)).1 = false.
Proof.
  apply (no_second_vote (World red_blue ∅ [] []) 2000 2001
           (vote_request "10.0.0.1" "ABCDEFGH" (Qc_of_Z 0) "fp-a")
           [JoinPoll 7 (Some "ABCDEFGH")] false 9000 9001
           (vote_request "10.0.0.1" "ABCDEFGH" (Qc_of_Z 1) "fp-other")).
  - vm_compute. reflexivity.
  - vm_compute. reflexivity.
  - left. vm_compute. reflexivity.
Defined.

(** ** The tally *)

(** X7.  What [getPoll] reports, for any contents of the database: nothing
    for an unknown poll, and for a stored poll one count per option, in
    order, the count at position [i] being the number of the poll's vote rows
    whose index is the integer [i].  Rows with any other index are in no
    count. *)
Theorem tally_counts_votes_per_option (d : db) (pollId : string) :
  tally d pollId
  = (λ r, (λ i : nat, count_index (statements.votes_of pollId d)
                                  (Qc_of_Z (Z.of_nat i)))
            <$> seq 0 (length (options r)))
    <$> polls d !! pollId.
Proof.
  rewrite tally_lookup. destruct (polls d !! pollId) as [r|]; [|done].
  cbn [fmap option_fmap option_map]. by rewrite poll_object_elems.
Qed.

Lemma count_index_snoc rows v k :
  count_index (rows ++ [v]) k
  = count_index rows k + (if decide (option_index v = k) then 1 else 0).
Proof.
  unfold count_index. rewrite filter_app, length_app, filter_cons. simpl.
  destruct (decide (option_index v = k)); simpl; lia.
Qed.

Lemma sum_results_insert (l : list Z) (i : nat) (x y : Z) :
  l !! i = Some x → sum_results (<[i := y]> l) = sum_results l - x + y.
Proof.
  revert i. induction l as [|z l IH]; intros [|i] Hi; try done; simpl in *.
  - injection Hi as ->. rewrite !sum_results_cons. lia.
  - rewrite !sum_results_cons, (IH i Hi). lia.
Qed.

Lemma poll_object_votes_of d d' pollId r :
  statements.votes_of pollId d' = statements.votes_of pollId d →
  p_results (poll_object d' pollId r) = p_results (poll_object d pollId r).
Proof.
  intros Hrows. unfold poll_object, statements.getVotesByPoll. simpl.
  by rewrite Hrows.
Qed.

(** X8.  An accepted vote for the integer option [i] adds one to the count
    of option [i] and to the total and changes no other count; the answer
    carries that new tally. *)
Theorem accepted_vote_increments_its_option
    (limited : bool) (tWindow tCommit : Z) (req : request) (w : world)
    (pollId : string) (i : nat) (before : list Z) :
  accepted (post_votes limited tWindow tCommit req w).1 = true →
  JS.field (body req) "pollId" = JS.Str pollId →
  JS.field (body req) "optionIndex" = JS.Num (Qc_of_Z (Z.of_nat i)) →
  tally (store w) pollId = Some before →
  ∃ x, before !! i = Some x
       ∧ tally (store (post_votes limited tWindow tCommit req w).2) pollId
         = Some (<[i := x + 1]> before)
       ∧ (post_votes limited tWindow tCommit req w).1
         = Response 200 (VoteRecorded (<[i := x + 1]> before)
                                      (sum_results before + 1)).
Proof.
  intros Hacc Hpoll Hindex Hbefore.
  destruct (post_votes_cases limited tWindow tCommit req w)
    as [(code&err&ss&Hrun&_)|(p&n&f&r&Hvalid&Hrow&_&Hlt&Hrun)];
    cbn zeta in Hrun; rewrite Hrun in *; [done|]. clear Hacc.
  destruct (validateVoteData_valid _ _ _ _ _ _ Hvalid) as (Hp&Hn&_).
  rewrite Hpoll in Hp. injection Hp as <-.
  rewrite Hindex in Hn. injection Hn as <-.
  apply Z2Qc_inj_lt, Nat2Z.inj_lt in Hlt.
  rewrite tally_lookup, Hrow in Hbefore. injection Hbefore as <-.
  set (rows := statements.votes_of pollId (store w)).
  set (x := count_index rows (Qc_of_Z (Z.of_nat i))).
  assert (Hx : elems (p_results (poll_object (store w) pollId r)) !! i = Some x).
  { rewrite poll_object_elems, list_lookup_fmap, lookup_seq_lt by done.
    done. }
  assert (Hnew :
    elems (p_results (poll_object
             (committed (store w) pollId (Qc_of_Z (Z.of_nat i))
                        (getClientIp req) f tCommit) pollId
             (PollRow (question r) (options r) (created_at r)
                      (vote_count r + 1))))
    = <[i := x + 1]> (elems (p_results (poll_object (store w) pollId r)))).
  { rewrite !poll_object_elems, votes_of_committed, decide_True by done.
    cbn [options]. fold rows. apply list_eq. intros j.
    destruct (decide (j < length (options r))%nat) as [Hj|Hj].
    - destruct (decide (i = j)) as [<-|Hne].
      + rewrite list_lookup_insert_eq
          by (by rewrite length_fmap, length_seq).
        rewrite list_lookup_fmap, lookup_seq_lt by done. simpl.
        rewrite count_index_snoc, decide_True by done. done.
      + rewrite list_lookup_insert_ne by done.
        rewrite !list_lookup_fmap, lookup_seq_lt by done. simpl.
        rewrite count_index_snoc, decide_False; [by rewrite Z.add_0_r|].
        simpl. intros Heq%Z2Qc_inj. lia.
    - rewrite lookup_ge_None_2
        by (rewrite length_fmap, length_seq; lia).
      rewrite lookup_ge_None_2; [done|].
      rewrite length_insert, length_fmap, length_seq. lia. }
  exists x. cbn [fst snd store]. split_and!; [done| |].
  - rewrite tally_lookup. erewrite committed_lookup by exact Hrow.
    cbn [fmap option_fmap option_map]. by rewrite Hnew.
  - rewrite Hnew. erewrite sum_results_insert by exact Hx.
    unfold poll_object. cbn [p_results]. do 2 f_equal. lia.
Qed.

Lemma accepted_vote_increments_its_option_witness :
  ∃ x, [1; 0] !! 1%nat = Some x
       ∧ tally (store (post_votes false 3000 3001
                         (vote_request "10.0.0.2" "ABCDEFGH" (Qc_of_Z 1) "fp-b")
                         after_first_vote).2) "ABCDEFGH"
         = Some (<[1%nat := x + 1]> [1; 0])
       ∧ (post_votes false 3000 3001
            (vote_request "10.0.0.2" "ABCDEFGH" (Qc_of_Z 1) "fp-b")
            after_first_vote).1
         = Response 200 (VoteRecorded (<[1%nat := x + 1]> [1; 0])
                                      (sum_results [1; 0] + 1)).
Proof.
  apply (accepted_vote_increments_its_option false 3000 3001
           (vote_request "10.0.0.2" "ABCDEFGH" (Qc_of_Z 1) "fp-b")
           after_first_vote "ABCDEFGH" 1 [1; 0]);
    vm_compute; reflexivity.
Defined.

(** X9.  A vote request touches one poll only: whatever its outcome, every
    poll other than the one its body names keeps its row, its vote rows and
    its tally. *)
Theorem vote_leaves_other_polls_alone
    (limited : bool) (tWindow tCommit : Z) (req : request) (w : world)
    (other : string) :
  JS.field (body req) "pollId" ≠ JS.Str other →
  let w' := (post_votes limited tWindow tCommit req w).2 in
  polls (store w') !! other = polls (store w) !! other
  ∧ statements.votes_of other (store w') = statements.votes_of other (store w)
  ∧ tally (store w') other = tally (store w) other.
Proof.
  intros Hother. cbn zeta.
  destruct (post_votes_cases limited tWindow tCommit req w)
    as [(code&err&ss&->&_)|(p&n&f&r&Hvalid&Hrow&_&_&Hrun)]; [done|].
  cbn zeta in Hrun. rewrite Hrun. cbn [snd store].
  destruct (validateVoteData_valid _ _ _ _ _ _ Hvalid) as (Hp&_).
  assert (Hne : p ≠ other) by congruence.
  assert (Hpolls : polls (committed (store w) p n (getClientIp req) f tCommit)
                   !! other = polls (store w) !! other)
    by (by rewrite committed_polls, lookup_alter_ne).
  assert (Hrows : statements.votes_of other
                    (committed (store w) p n (getClientIp req) f tCommit)
                  = statements.votes_of other (store w))
    by (by rewrite votes_of_committed, decide_False, app_nil_r).
  split_and!; [done..|].
  rewrite !tally_lookup, Hpolls.
  destruct (polls (store w) !! other) as [r'|]; [|done].
  cbn [fmap option_fmap option_map].
  by rewrite (poll_object_votes_of _ _ _ _ Hrows).
Qed.

Lemma vote_leaves_other_polls_alone_witness :
  let w' := (post_votes false 3000 3001
               (vote_request "10.0.0.2" "ZZZZZZZZ" (Qc_of_Z 1) "fp-b")
               after_first_vote).2 in
  polls (store w') !! "ABCDEFGH" = polls (store after_first_vote) !! "ABCDEFGH"
  ∧ statements.votes_of "ABCDEFGH" (store w')
    = statements.votes_of "ABCDEFGH" (store after_first_vote)
  ∧ tally (store w') "ABCDEFGH" = tally (store after_first_vote) "ABCDEFGH".
Proof.
  apply (vote_leaves_other_polls_alone false 3000 3001
           (vote_request "10.0.0.2" "ZZZZZZZZ" (Qc_of_Z 1) "fp-b")
           after_first_vote "ABCDEFGH").
  vm_compute. discriminate.
Defined.

Lemma integral_votes_all_counted_witness :
  sum_results <$> tally (store after_integer_vote) "ABCDEFGH"
  = Some (Z.of_nat (length (statements.votes_of "ABCDEFGH"
                              (store after_integer_vote))))
  ∧ sum_results <$> tally (store after_integer_vote) "ABCDEFGH"
    = Some (vote_count (PollRow "Colour?" ["Red"; "Blue"] 1000 1)).
Proof.
  apply (integral_votes_all_counted after_integer_vote "ABCDEFGH").
  - unfold after_integer_vote, poll_created.
    apply reachable_step, reachable_step, reachable_init.
  - vm_compute. reflexivity.
  - vm_compute. repeat constructor.
Defined.

(** ** Requests that do not reach the admission checks *)

Lemma isValidPollId_truthy v : isValidPollId v = true → JS.truthy v = true.
Proof.
  unfold isValidPollId. destruct v; try done.
  by destruct (JS.truthy (JS.Str s)).
Qed.

Lemma validatePollId_None req :
  validatePollId req = None ↔ isValidPollId (requested_poll_id req) = true.
Proof.
  unfold validatePollId. fold (requested_poll_id req). split.
  - destruct (negb (JS.truthy _)); [done|].
    by destruct (isValidPollId (requested_poll_id req)).
  - intros Hvalid. by rewrite (isValidPollId_truthy _ Hvalid), Hvalid.
Qed.

(** X10.  A vote request stopped by the limiter, or with an empty body, or
    whose poll id is missing or ill-formed, or whose fields fail
    [validateVoteData], is answered 429 (limiter) or 400 and changes nothing
    at all: no statement is run against the database, no row is written, no
    room or outbox is touched. *)
Theorem malformed_vote_requests_run_no_statement
    (limited : bool) (tWindow tCommit : Z) (req : request) (w : world) :
  limited = true
  ∨ size (body req) = 0%nat
  ∨ isValidPollId (requested_poll_id req) = false
  ∨ (∀ pollId n fp,
       validateVoteData (JS.field (body req) "pollId")
                        (JS.field (body req) "optionIndex")
                        (JS.field (body req) "fingerprint")
       ≠ VoteValid pollId n fp) →
  ∃ code error,
    post_votes limited tWindow tCommit req w
    = (Response code (ErrorBody error), w)
    ∧ code = (if limited then 429 else 400)%nat.
Proof.
  intros Hbad. unfold post_votes, voteLimiter, requireBody.
  destruct limited; [by eexists _, _|].
  case_bool_decide as Hsize; [by eexists _, _|].
  destruct (validatePollId req) as [[code body]|] eqn:Hid.
  { unfold validatePollId in Hid.
    destruct (negb (JS.truthy _)); [injection Hid as <- <-; by eexists _, _|].
    destruct (negb (isValidPollId _)); [|done].
    injection Hid as <- <-. by eexists _, _. }
  apply validatePollId_None in Hid.
  destruct Hbad as [?|[?|[?|Hinvalid]]]; [done|done|congruence|].
  unfold post_votes_handler.
  destruct (validateVoteData _ _ _) as [error|p n f] eqn:Hvalid;
    [by eexists _, _|]. by destruct (Hinvalid p n f).
Qed.

Lemma malformed_vote_requests_run_no_statement_witness :
  ∃ code error,
    post_votes false 3000 3001
      (vote_request "10.0.0.2" "poll-one" (Qc_of_Z 1) "fp-b") after_first_vote
    = (Response code (ErrorBody error), after_first_vote)
    ∧ code = 400%nat.
Proof.
  apply (malformed_vote_requests_run_no_statement false 3000 3001
           (vote_request "10.0.0.2" "poll-one" (Qc_of_Z 1) "fp-b")
           after_first_vote).
  right; right; left. vm_compute. reflexivity.
Defined.

(** X11.  A well-formed vote for a poll that does not exist is answered 404
    "Poll not found" after the single statement that looks the poll up: no
    admission check is run and nothing is written. *)
Theorem vote_for_missing_poll_is_404
    (tWindow tCommit : Z) (req : request) (w : world)
    (pollId : string) (n : Qc) (fp : string) :
  requireBody req = None →
  validatePollId req = None →
  validateVoteData (JS.field (body req) "pollId")
                   (JS.field (body req) "optionIndex")
                   (JS.field (body req) "fingerprint") = VoteValid pollId n fp →
  polls (store w) !! pollId = None →
  post_votes false tWindow tCommit req w
  = (Response 404 (ErrorBody "Poll not found"), logged [StGetPoll] w).
Proof.
  intros Hbody Hid Hvalid Hrow. unfold post_votes, voteLimiter.
  rewrite Hbody, Hid. unfold post_votes_handler. rewrite Hvalid.
  unfold mbind, M_bind. by rewrite getPoll_run, Hrow.
Qed.

Lemma vote_for_missing_poll_is_404_witness :
  post_votes false 3000 3001 vote_for_unknown_poll after_first_vote
  = (Response 404 (ErrorBody "Poll not found"),
     logged [StGetPoll] after_first_vote).
Proof.
  apply (vote_for_missing_poll_is_404 3000 3001 vote_for_unknown_poll
           after_first_vote "ZZZZZZZZ" (Qc_of_Z 1) "fp-b");
    vm_compute; reflexivity.
Defined.

(** ** Poll ids *)

Lemma string_forall_mem p c s :
  string_forall p s = true → string_mem c s = true → p c = true.
Proof.
  induction s as [|d s IH]; simpl; [done|].
  intros [Hd Hs]%andb_true_iff [->%bool_decide_eq_true|Hc]%orb_true_iff;
    [done|by apply IH].
Qed.

Lemma string_forall_impl (p q : ascii → bool) s :
  (∀ c, p c = true → q c = true) →
  string_forall p s = true → string_forall q s = true.
Proof.
  intros Hpq. induction s as [|d s IH]; simpl; [done|].
  intros [Hd Hs]%andb_true_iff. by rewrite (Hpq _ Hd), IH.
Qed.

(** X12.  Every poll id [isValidPollId] accepts is a string of exactly 8
    ASCII letters and digits, none of them one of the look-alikes 0, O, I
    and l. *)
Theorem valid_poll_ids_are_plain (v : JS.value) :
  isValidPollId v = true →
  ∃ s, v = JS.Str s
       ∧ String.length s = 8%nat
       ∧ string_forall is_alnum s = true
       ∧ string_forall unambiguous s = true.
Proof.
  unfold isValidPollId. destruct v as [| | | |s| |]; try done.
  destruct (negb (JS.truthy (JS.Str s))); [done|].
  case_bool_decide as Hlen; [|done]. cbn [negb]. intros Hs.
  exists s. split_and!; [done..| |].
  - eapply string_forall_impl; [|exact Hs]. intros c Hc.
    by apply (string_forall_mem is_alnum c alphabet).
  - eapply string_forall_impl; [|exact Hs]. intros c Hc.
    by apply (string_forall_mem unambiguous c alphabet).
Qed.

Lemma valid_poll_ids_are_plain_witness :
  ∃ s, JS.Str "ABCDEFGH" = JS.Str s
       ∧ String.length s = 8%nat
       ∧ string_forall is_alnum s = true
       ∧ string_forall unambiguous s = true.
Proof.
  apply (valid_poll_ids_are_plain (JS.Str "ABCDEFGH")).
  vm_compute. reflexivity.
Defined.

(** ** Creating a poll *)

Lemma validatePollData_output q opts q' opts' :
  validatePollData q opts = PollValid q' opts' →
  q' = sanitizeInput q
  ∧ ∃ items, opts = JS.Arr items ∧ opts' = sanitizeInput <$> items.
Proof.
  unfold validatePollData.
  destruct q as [| | | |s| |]; try discriminate.
  destruct (_ || _); [discriminate|].
  case_bool_decide; [discriminate|].
  destruct opts as [| | | | |items|]; try discriminate.
  case_bool_decide; [discriminate|].
  case_bool_decide; [discriminate|].
  destruct (validate_options 0 items); [discriminate|].
  intros [= <- <-]. split; [done|]. by exists items.
Qed.

(** X13.  When the creation route answers 201 in a reachable state, the id
    was free before; the new row holds the sanitised question and options,
    the clock reading and a counter of 0; [getPoll] on the new id returns
    exactly that with an all-zero tally of one entry per option; the answer
    carries the same id, question and options and the share path
    [/poll/<id>]; and every other poll and every vote row is as before. *)
Theorem created_poll_reads_back
    (limited : bool) (generated : string) (now : Z) (req : request) (w : world) :
  reachable w →
  status (post_polls limited generated now req w).1 = 201%nat →
  let w' := (post_polls limited generated now req w).2 in
  let q := sanitizeInput (JS.field (body req) "question") in
  ∃ items,
    JS.field (body req) "options" = JS.Arr items
    ∧ polls (store w) !! generated = None
    ∧ (post_polls limited generated now req w).1
      = Response 201 (PollCreated generated q (sanitizeInput <$> items)
                                  ("/poll/" +:+ generated))
    ∧ (dbHelpers.getPoll generated w').1
      = Some (Poll generated q (sanitizeInput <$> items) now 0
                   (JsArray ((λ _, 0) <$> items) []))
    ∧ (∀ id, id ≠ generated → polls (store w') !! id = polls (store w) !! id)
    ∧ votes (store w') = votes (store w).
Proof.
  intros Hw Hstatus. cbn zeta.
  destruct (post_polls_cases limited generated now req w)
    as [(code&err&ss&Hrun&Hcode)|(q&opts&Hvalid&Hfresh&Hrun)].
  - exfalso. rewrite Hrun in Hstatus. simpl in Hstatus. subst code.
    unfold post_polls, createPollLimiter, requireBody in Hrun.
    destruct limited; [by injection Hrun|].
    case_bool_decide; [by injection Hrun|].
    unfold post_polls_handler in Hrun.
    destruct (validatePollData _ _) as [e|q opts]; [by injection Hrun|].
    unfold dbHelpers.createPoll, mbind, M_bind, run in Hrun. cbn beta in Hrun.
    destruct (statements.createPoll generated q opts now (store w));
      by injection Hrun.
  - destruct (validatePollData_output _ _ _ _ Hvalid) as (-> & items & Hitems & ->).
    exists items. rewrite Hrun. cbn [fst snd store].
    split_and!; [done..| | |done].
    + rewrite getPoll_run. cbn [store polls]. rewrite lookup_insert_eq.
      cbn [fst]. f_equal.
      unfold poll_object, statements.getVotesByPoll, statements.votes_of.
      cbn [votes question options created_at vote_count].
      fold (statements.votes_of generated (store w)).
      rewrite votes_of_unreferenced;
        [|by apply reachable_invariants|done].
      simpl. by rewrite <- list_fmap_compose.
    + intros id Hne. simpl. by rewrite lookup_insert_ne.
Qed.

Lemma created_poll_reads_back_witness :
  ∃ items,
    JS.field (body (poll_request "Red/Blue?" ["<Red>"; "Blue"])) "options"
    = JS.Arr items
    ∧ polls (store initial_world) !! "ABCDEFGH" = None
    ∧ (post_polls false "ABCDEFGH" 1000
         (poll_request "Red/Blue?" ["<Red>"; "Blue"]) initial_world).1
      = Response 201
          (PollCreated "ABCDEFGH"
             (sanitizeInput (JS.Str "Red/Blue?")) (sanitizeInput <$> items)
             ("/poll/" +:+ "ABCDEFGH"))
    ∧ (dbHelpers.getPoll "ABCDEFGH"
         (post_polls false "ABCDEFGH" 1000
            (poll_request "Red/Blue?" ["<Red>"; "Blue"]) initial_world).2).1
      = Some (Poll "ABCDEFGH" (sanitizeInput (JS.Str "Red/Blue?"))
                   (sanitizeInput <$> items) 1000 0
                   (JsArray ((λ _, 0) <$> items) []))
    ∧ (∀ id, id ≠ "ABCDEFGH" →
             polls (store (post_polls false "ABCDEFGH" 1000
                             (poll_request "Red/Blue?" ["<Red>"; "Blue"])
                             initial_world).2) !! id
             = polls (store initial_world) !! id)
    ∧ votes (store (post_polls false "ABCDEFGH" 1000
                      (poll_request "Red/Blue?" ["<Red>"; "Blue"])
                      initial_world).2)
      = votes (store initial_world).
Proof.
  apply (created_poll_reads_back false "ABCDEFGH" 1000
           (poll_request "Red/Blue?" ["<Red>"; "Blue"]) initial_world).
  - apply reachable_init.
  - vm_compute. reflexivity.
Defined.

(** X14.  An id that is already taken is never overwritten: when
    [generatePollId] returns the id of a stored poll, the creation route does
    not answer 201, a request that passed the limiter and the validation is
    answered 500 "Failed to create poll", and the database is left as it
    was. *)
Theorem taken_id_is_not_overwritten
    (limited : bool) (generated : string) (now : Z) (req : request) (w : world)
    (r : poll_row) :
  polls (store w) !! generated = Some r →
  let res := (post_polls limited generated now req w).1 in
  let w' := (post_polls limited generated now req w).2 in
  store w' = store w
  ∧ status res ≠ 201%nat
  ∧ (limited = false →
     (∃ q opts, validatePollData (JS.field (body req) "question")
                                 (JS.field (body req) "options")
                = PollValid q opts) →
     res = Response 500 (ErrorBody "Failed to create poll")).
Proof.
  intros Hrow. cbn zeta. unfold post_polls, createPollLimiter, requireBody.
  destruct limited; [by split_and!|].
  case_bool_decide as Hsize.
  { split_and!; [done..|]. intros _ (q & opts & Hvalid). exfalso.
    unfold validatePollData, JS.field in Hvalid.
    apply map_size_empty_iff in Hsize. rewrite Hsize, lookup_empty in Hvalid.
    done. }
  unfold post_polls_handler.
  destruct (validatePollData _ _) as [e|q opts] eqn:Hvalid.
  { split_and!; [done..|]. by intros _ (? & ? & ?). }
  unfold dbHelpers.createPoll, mbind, M_bind, run, statements.createPoll.
  cbn beta. rewrite Hrow. by split_and!.
Qed.

Lemma taken_id_is_not_overwritten_witness :
  store (post_polls false "ABCDEFGH" 5000
           (poll_request "Again?" ["Yes"; "No"]) after_first_vote).2
  = store after_first_vote
  ∧ status (post_polls false "ABCDEFGH" 5000
              (poll_request "Again?" ["Yes"; "No"]) after_first_vote).1
    ≠ 201%nat
  ∧ (false = false →
     (∃ q opts, validatePollData
                  (JS.field (body (poll_request "Again?" ["Yes"; "No"])) "question")
                  (JS.field (body (poll_request "Again?" ["Yes"; "No"])) "options")
                = PollValid q opts) →
     (post_polls false "ABCDEFGH" 5000
        (poll_request "Again?" ["Yes"; "No"]) after_first_vote).1
     = Response 500 (ErrorBody "Failed to create poll")).
Proof.
  apply (taken_id_is_not_overwritten false "ABCDEFGH" 5000
           (poll_request "Again?" ["Yes"; "No"]) after_first_vote
           (PollRow "Colour?" ["Red"; "Blue"] 1000 1)).
  vm_compute. reflexivity.
Defined.

(** ** Rooms *)

(** X15.  The two halves of the server do not reach into each other: no
    socket event (join, vote-submitted, leave, disconnect) changes the
    database, and no HTTP request (creating a poll, voting) changes a room or
    emits an event. *)
Theorem sockets_and_routes_are_separate (i : input) (w : world) :
  if is_socket_input i
  then store (handle i w) = store w
  else rooms (handle i w) = rooms w ∧ outbox (handle i w) = outbox w.
Proof.
  destruct i as [limited generated now req|limited tWindow tCommit req
                |sid pollId|sid pollId|sid pollId|sid]; simpl.
  - destruct (post_polls_cases limited generated now req w)
      as [(code&err&ss&->&_)|(q&opts&_&_&->)]; done.
  - destruct (post_votes_cases limited tWindow tCommit req w)
      as [(code&err&ss&->&_)|(p&n&f&r&_&_&_&_&Hrun)]; [done|].
    cbn zeta in Hrun. by rewrite Hrun.
  - apply on_join_poll_store.
  - apply on_vote_submitted_store.
  - apply on_leave_poll_store.
  - done.
Qed.

Lemma room_of_inj p q : room_of p = room_of q → p = q.
Proof. unfold room_of. apply String.app_inj. Qed.

(** What a [vote-submitted] event sends: something to members of the
    poll's room only. *)
Lemma on_vote_submitted_sent any pollId w :
  ∃ sent,
    outbox (on_vote_submitted any (Some pollId) w).2 = outbox w ++ sent
    ∧ rooms (on_vote_submitted any (Some pollId) w).2 = rooms w
    ∧ ∀ s, s ∉ members (room_of pollId) w → deliveries_to s sent = [].
Proof.
  destruct (decide (pollId = "")) as [->|Hs].
  { exists []. split_and!; [by rewrite app_nil_r|done..]. }
  rewrite (on_vote_submitted_run _ _ _ Hs).
  destruct (polls (store w) !! pollId) as [r|].
  - cbn zeta. eexists. split_and!; [done..|]. intros s Hout.
    rewrite deliveries_to_fanout by apply NoDup_elements.
    rewrite decide_False; [done|]. by rewrite elem_of_elements.
  - exists []. split_and!; [by rewrite app_nil_r|done..].
Qed.

Lemma members_join sid pollId w s room :
  pollId ≠ "" →
  s ∈ members room (on_join_poll sid (Some pollId) w).2
  ↔ s ∈ members room w ∨ (s = sid ∧ room = room_of pollId).
Proof.
  intros Hs. rewrite (on_join_poll_run _ _ _ Hs). cbn zeta.
  assert (Hrooms : ∀ st ob tr,
    s ∈ members room
          (World st (<[room_of pollId := {[sid]} ∪ members (room_of pollId) w]>
                       (rooms w)) ob tr)
    ↔ s ∈ members room w ∨ (s = sid ∧ room = room_of pollId)).
  { intros st ob tr. unfold members at 1. cbn [rooms].
    destruct (decide (room_of pollId = room)) as [<-|Hne].
    - rewrite lookup_insert_eq. simpl. set_solver.
    - rewrite lookup_insert_ne by done. fold (members room w). naive_solver. }
  destruct (polls (store w) !! pollId); simpl; apply Hrooms.
Qed.

(** X16.  Joining a poll's room adds that connection to that room and
    changes no other membership; joining again changes no membership at all;
    and an update for a different poll sends the connection nothing unless
    it was already in that other poll's room. *)
Theorem join_poll_membership
    (sid : nat) (pollId : string) (w : world) :
  pollId ≠ "" →
  let w1 := (on_join_poll sid (Some pollId) w).2 in
  (∀ s room, s ∈ members room w1
             ↔ s ∈ members room w ∨ (s = sid ∧ room = room_of pollId))
  ∧ (∀ s room, s ∈ members room (on_join_poll sid (Some pollId) w1).2
               ↔ s ∈ members room w1)
  ∧ (∀ any other,
       other ≠ pollId →
       sid ∉ members (room_of other) w →
       ∃ sent,
         outbox (on_vote_submitted any (Some other) w1).2 = outbox w1 ++ sent
         ∧ deliveries_to sid sent = []).
Proof.
  intros Hs. cbn zeta. split_and!.
  - intros s room. by apply members_join.
  - intros s room. rewrite !members_join by done. naive_solver.
  - intros any other Hne Hout.
    destruct (on_vote_submitted_sent any other
                (on_join_poll sid (Some pollId) w).2) as (sent & Hsent & _ & Hto).
    exists sent. split; [done|]. apply Hto.
    rewrite members_join by done. intros [?|[_ Hroom%room_of_inj]]; done.
Qed.

Lemma join_poll_membership_witness :
  let w1 := (on_join_poll 8 (Some "ABCDEFGH") viewer_joined).2 in
  (∀ s room, s ∈ members room w1
             ↔ s ∈ members room viewer_joined
               ∨ (s = 8%nat ∧ room = room_of "ABCDEFGH"))
  ∧ (∀ s room, s ∈ members room (on_join_poll 8 (Some "ABCDEFGH") w1).2
               ↔ s ∈ members room w1)
  ∧ (∀ any other,
       other ≠ "ABCDEFGH" →
       8%nat ∉ members (room_of other) viewer_joined →
       ∃ sent,
         outbox (on_vote_submitted any (Some other) w1).2 = outbox w1 ++ sent
         ∧ deliveries_to 8 sent = []).
Proof.
  apply (join_poll_membership 8 "ABCDEFGH" viewer_joined). discriminate.
Defined.

Lemma members_leave sid pollId w s room :
  pollId ≠ "" →
  s ∈ members room (on_leave_poll sid (Some pollId) w).2
  ↔ s ∈ members room w ∧ ¬ (s = sid ∧ room = room_of pollId).
Proof.
  intros Hs. unfold on_leave_poll. rewrite (present_Some _ Hs).
  cbn [negb default from_option id]. unfold socket_leave, members at 1.
  cbn [snd rooms].
  destruct (decide (room_of pollId = room)) as [<-|Hne].
  - rewrite lookup_insert_eq. simpl. set_solver.
  - rewrite lookup_insert_ne by done. fold (members room w). naive_solver.
Qed.

(** X17.  After [leave-poll] the connection is out of that poll's room, the
    other connections and the other rooms are as before, and the next update
    of that poll sends it nothing. *)
Theorem left_connection_gets_no_update
    (sid : nat) (pollId : string) (w : world) :
  pollId ≠ "" →
  let w1 := (on_leave_poll sid (Some pollId) w).2 in
  (∀ s room, s ∈ members room w1
             ↔ s ∈ members room w ∧ ¬ (s = sid ∧ room = room_of pollId))
  ∧ store w1 = store w ∧ outbox w1 = outbox w
  ∧ (∀ any,
       ∃ sent,
         outbox (on_vote_submitted any (Some pollId) w1).2 = outbox w1 ++ sent
         ∧ deliveries_to sid sent = []).
Proof.
  intros Hs. cbn zeta. split_and!.
  - intros s room. by apply members_leave.
  - apply on_leave_poll_store.
  - unfold on_leave_poll. by rewrite (present_Some _ Hs).
  - intros any.
    destruct (on_vote_submitted_sent any pollId
                (on_leave_poll sid (Some pollId) w).2) as (sent & Hsent & _ & Hto).
    exists sent. split; [done|]. apply Hto.
    rewrite members_leave by done. naive_solver.
Qed.

Lemma left_connection_gets_no_update_witness :
  let w1 := (on_leave_poll 7 (Some "ABCDEFGH") two_viewers).2 in
  (∀ s room, s ∈ members room w1
             ↔ s ∈ members room two_viewers
               ∧ ¬ (s = 7%nat ∧ room = room_of "ABCDEFGH"))
  ∧ store w1 = store two_viewers ∧ outbox w1 = outbox two_viewers
  ∧ (∀ any,
       ∃ sent,
         outbox (on_vote_submitted any (Some "ABCDEFGH") w1).2
         = outbox w1 ++ sent
         ∧ deliveries_to 7 sent = []).
Proof.
  apply (left_connection_gets_no_update 7 "ABCDEFGH" two_viewers). discriminate.
Defined.

(** ** The GET routes *)

(** X19.  [GET /api/polls/:pollId] with a well-formed id in the path: for a
    stored poll the answer is 200 with its id, question, options and creation
    time, the tally [getPoll] reports and the sum of that tally as
    [totalVotes]; for an unknown id it is 404 "Poll not found".  Either way
    the database, the rooms and the outbox are left as they were. *)
Theorem get_poll_reports_the_tally (req : request) (w : world) (pollId : string) :
  JS.field (params req) "pollId" = JS.Str pollId →
  isValidPollId (JS.Str pollId) = true →
  let res := (get_poll false req w).1 in
  let w' := (get_poll false req w).2 in
  store w' = store w ∧ rooms w' = rooms w ∧ outbox w' = outbox w
  ∧ match polls (store w) !! pollId, tally (store w) pollId with
    | Some r, Some results =>
        res = GetResponse 200
                (GetPollBody (PollView pollId (question r) (options r) results
                                       (sum_results results) (created_at r)))
    | _, _ => res = GetResponse 404 (GetError "Poll not found")
    end.
Proof.
  intros Hparam Hvalid. cbn zeta.
  assert (Hid : validatePollId req = None).
  { apply validatePollId_None. unfold requested_poll_id, JS.or.
    by rewrite Hparam, (isValidPollId_truthy _ Hvalid). }
  unfold get_poll, getPollLimiter, validatePollId_get. rewrite Hid.
  unfold get_poll_handler. rewrite Hparam.
  unfold mbind, M_bind. rewrite getPoll_run, tally_lookup.
  by destruct (polls (store w) !! pollId).
Qed.

Lemma get_poll_reports_the_tally_witness :
  let res := (get_poll false (page_request "ABCDEFGH") after_first_vote).1 in
  let w' := (get_poll false (page_request "ABCDEFGH") after_first_vote).2 in
  store w' = store after_first_vote ∧ rooms w' = rooms after_first_vote
  ∧ outbox w' = outbox after_first_vote
  ∧ match polls (store after_first_vote) !! "ABCDEFGH",
          tally (store after_first_vote) "ABCDEFGH" with
    | Some r, Some results =>
        res = GetResponse 200
                (GetPollBody (PollView "ABCDEFGH" (question r) (options r)
                                       results (sum_results results)
                                       (created_at r)))
    | _, _ => res = GetResponse 404 (GetError "Poll not found")
    end.
Proof.
  apply (get_poll_reports_the_tally (page_request "ABCDEFGH") after_first_vote
           "ABCDEFGH"); vm_compute; reflexivity.
Defined.

Lemma StronglySorted_take {A} (R : relation A) (n : nat) (l : list A) :
  StronglySorted R l → StronglySorted R (take n l).
Proof.
  intros Hl. revert n. induction Hl as [|x l _ IH Hx]; intros [|n]; simpl;
    try constructor; [apply IH|by apply Forall_take].
Qed.

#[local] Instance created_not_before_total : Total created_not_before.
Proof. intros a b. unfold created_not_before. lia. Qed.

#[local] Instance created_not_before_trans : Transitive created_not_before.
Proof. intros a b c. unfold created_not_before. lia. Qed.

Lemma getAllPolls_statement_sublist d :
  ∃ sorted, sorted ≡ₚ map_to_list (polls d)
            ∧ StronglySorted created_not_before sorted
            ∧ getAllPolls_statement d = take 100 sorted.
Proof.
  exists (merge_sort created_not_before (map_to_list (polls d))).
  split_and!; [apply merge_sort_Permutation| |done].
  apply Sorted_StronglySorted; [apply _|]. apply Sorted_merge_sort. apply _.
Qed.

(** X20.  [GET /api/polls] answers 200 with a list of at most 100 entries,
    the 100 newest when there are more: every entry is a stored poll with its
    question, creation time and [vote_count], no poll is listed twice, no
    entry is older than one after it, and while there are at most 100 polls
    every poll is listed; a poll that is not listed is not newer than any
    listed one.  The request changes nothing. *)
Theorem get_polls_lists_newest_first (w : world) :
  ∃ summaries,
    get_polls false w = (GetResponse 200 (GetPollsBody summaries), w)
    ∧ length summaries = (100 `min` size (polls (store w)))%nat
    ∧ NoDup (s_id <$> summaries)
    ∧ (∀ s, s ∈ summaries →
            ∃ r, polls (store w) !! s_id s = Some r ∧ s = summary_of (s_id s, r))
    ∧ StronglySorted newer_first summaries
    ∧ ((size (polls (store w)) ≤ 100)%nat →
       ∀ id r, polls (store w) !! id = Some r → summary_of (id, r) ∈ summaries)
    ∧ (∀ id r s, polls (store w) !! id = Some r →
                 summary_of (id, r) ∉ summaries →
                 s ∈ summaries → created_at r ≤ s_createdAt s).
Proof.
  destruct (getAllPolls_statement_sublist (store w)) as (sorted & Hperm & Hsorted & Hrows).
  exists (summary_of <$> getAllPolls_statement (store w)).
  rewrite Hrows. split_and!.
  - unfold get_polls, getPollLimiter, mbind, M_bind, getAllPolls.
    by rewrite Hrows.
  - by rewrite length_fmap, length_take, Hperm, length_map_to_list.
  - rewrite <- list_fmap_compose.
    apply (sublist_NoDup _ (sorted.*1)).
    + rewrite Hperm. apply NoDup_fst_map_to_list.
    + apply fmap_sublist, sublist_take.
  - intros s (p & -> & Hp)%list_elem_of_fmap.
    apply (elem_of_sublist _ sorted) in Hp; [|apply sublist_take].
    rewrite Hperm in Hp. apply elem_of_map_to_list' in Hp.
    exists p.2. split; [done|]. by destruct p.
  - apply (StronglySorted_fmap _ created_not_before); [done|].
    by apply StronglySorted_take.
  - intros Hsize id r Hrow. apply list_elem_of_fmap. exists (id, r).
    split; [done|]. rewrite take_ge.
    + rewrite Hperm. by apply elem_of_map_to_list.
    + by rewrite Hperm, length_map_to_list.
  - intros id r s Hrow Hout (p & -> & Hp)%list_elem_of_fmap.
    apply elem_of_map_to_list in Hrow. rewrite <- Hperm in Hrow.
    rewrite <- (take_drop 100 sorted) in Hrow, Hsorted.
    apply elem_of_app in Hrow as [Hin|Hrest].
    + destruct Hout. apply list_elem_of_fmap. by exists (id, r).
    + apply (StronglySorted_app_1_elem_of _ _ _ _ _ Hsorted Hp Hrest).
Qed.

Lemma get_polls_listing w :
  ∃ summaries,
    get_polls false w = (GetResponse 200 (GetPollsBody summaries), w)
    ∧ ∀ s, s ∈ summaries →
           ∃ r, polls (store w) !! s_id s = Some r ∧ s = summary_of (s_id s, r).
Proof.
  exists (summary_of <$> getAllPolls_statement (store w)). split; [done|].
  destruct (getAllPolls_statement_sublist (store w)) as (sorted & Hperm & _ & ->).
  intros s (p & -> & Hp)%list_elem_of_fmap.
  apply (elem_of_sublist _ sorted) in Hp; [|apply sublist_take].
  rewrite Hperm in Hp. apply elem_of_map_to_list' in Hp.
  exists p.2. split; [done|]. by destruct p.
Qed.

(** X21.  In every state the server can reach, the [voteCount] the poll
    list shows for a poll is the number of vote rows of that poll. *)
Theorem listed_vote_count_is_row_count (w : world) (summaries : list poll_summary)
    (s : poll_summary) :
  reachable w →
  (get_polls false w).1 = GetResponse 200 (GetPollsBody summaries) →
  s ∈ summaries →
  s_voteCount s
  = Z.of_nat (length (statements.votes_of (s_id s) (store w))).
Proof.
  intros Hw Hres Hs.
  destruct (get_polls_listing w) as (l & Hrun & Hall).
  rewrite Hrun in Hres. injection Hres as <-.
  destruct (Hall s Hs) as (r & Hrow & ->).
  by apply (reachable_invariants w Hw).
Qed.

Lemma listed_vote_count_is_row_count_witness :
  s_voteCount (PollSummary "ABCDEFGH" "Colour?" 1 1000)
  = Z.of_nat (length (statements.votes_of
                        (s_id (PollSummary "ABCDEFGH" "Colour?" 1 1000))
                        (store fractional_run))).
Proof.
  apply (listed_vote_count_is_row_count fractional_run
           [PollSummary "ABCDEFGH" "Colour?" 1 1000]).
  - unfold fractional_run, poll_created.
    apply reachable_step, reachable_step, reachable_init.
  - vm_compute. reflexivity.
  - by left.
Defined.

(** ** The creation form of the client *)

Lemma rendered_below_length index options :
  CreateForm.rendered index options = true → (index < length options)%nat.
Proof.
  unfold CreateForm.rendered. intros Hrow. apply lookup_lt_is_Some.
  by destruct (options !! index).
Qed.

Lemma length_updateOption_row index value options :
  (index < length options)%nat →
  length (CreateForm.updateOption index value options) = length options.
Proof.
  intros Hrow. unfold CreateForm.updateOption.
  rewrite bool_decide_eq_true_2 by done. apply length_insert.
Qed.

Lemma length_updateOption_past_end index value options :
  (length options ≤ index)%nat →
  length (CreateForm.updateOption index value options) = S index.
Proof.
  intros Hpast. unfold CreateForm.updateOption.
  rewrite bool_decide_eq_false_2 by lia.
  rewrite !length_app, length_replicate. simpl. lia.
Qed.

Lemma fire_keeps_bounds options ev :
  (2 ≤ length options ≤ 10)%nat →
  (2 ≤ length (CreateForm.fire options ev) ≤ 10)%nat.
Proof.
  intros Hlen. destruct ev as [|index|index value]; simpl.
  - unfold CreateForm.addOption. case_bool_decide; [done|].
    rewrite length_app. simpl. lia.
  - destruct (CreateForm.rendered index options) eqn:Hindex; [|done].
    destruct (bool_decide (2 < length options)%nat) eqn:Hmore; [|done].
    apply rendered_below_length in Hindex.
    apply bool_decide_eq_true in Hmore. simpl.
    unfold CreateForm.removeOption. rewrite bool_decide_eq_false_2 by lia.
    rewrite length_delete by (by apply lookup_lt_is_Some). lia.
  - destruct (CreateForm.rendered index options) eqn:Hindex; [|done].
    apply rendered_below_length in Hindex.
    by rewrite length_updateOption_row.
Qed.

Lemma fire_leaves_no_hole options ev :
  Forall is_Some options → Forall is_Some (CreateForm.fire options ev).
Proof.
  intros Hfull. destruct ev as [|index|index value]; simpl.
  - unfold CreateForm.addOption. case_bool_decide; [done|].
    apply Forall_app. split; [done|]. by apply Forall_singleton.
  - destruct (_ && _); [|done].
    unfold CreateForm.removeOption. case_bool_decide; [done|].
    by apply Forall_delete.
  - destruct (CreateForm.rendered index options) eqn:Hindex; [|done].
    apply rendered_below_length in Hindex. unfold CreateForm.updateOption.
    rewrite bool_decide_eq_true_2 by done. by apply Forall_insert.
Qed.

Lemma delete_out_of_range {A} (l : list A) (i : nat) :
  (length l ≤ i)%nat → delete i l = l.
Proof.
  revert i. induction l as [|x l IH]; intros [|i]; simpl; intros Hi;
    [done|done|lia|]. f_equal. apply IH. lia.
Qed.

Lemma length_omap_le {A B} (f : A → option B) (l : list A) :
  (length (omap f l) ≤ length l)%nat.
Proof.
  induction l as [|x l IH]; csimpl; [done|]. destruct (f x); csimpl; lia.
Qed.

Lemma form_has_two_to_ten_rows events :
  (2 ≤ length (form_after events) ≤ 10)%nat.
Proof.
  unfold form_after.
  induction events as [|ev events IH] using rev_ind; [simpl; lia|].
  rewrite foldl_app. simpl. by apply fire_keeps_bounds.
Qed.

Lemma form_has_no_hole events : Forall is_Some (form_after events).
Proof.
  unfold form_after.
  induction events as [|ev events IH] using rev_ind.
  - by repeat constructor.
  - rewrite foldl_app. simpl. by apply fire_leaves_no_hole.
Qed.

(** X22.  Whatever the user clicks and types into the rows of the creation
    form, its option list has between 2 and 10 rows and no hole: [addOption]
    stops at 10, [removeOption] stops at 2 whatever row it is asked to
    remove, and [updateOption] on an existing row keeps the number of rows.
    An [updateOption] at or past the end, which no rendered input fires,
    makes the array [index + 1] long. *)
Theorem form_has_two_to_ten_options :
  (∀ events, (2 ≤ length (form_after events) ≤ 10)%nat
             ∧ Forall is_Some (form_after events))
  ∧ (∀ options index value,
       (2 ≤ length options ≤ 10)%nat →
       (2 ≤ length (CreateForm.addOption options) ≤ 10)%nat
       ∧ (2 ≤ length (CreateForm.removeOption index options) ≤ 10)%nat
       ∧ ((index < length options)%nat →
          length (CreateForm.updateOption index value options)
          = length options)
       ∧ ((length options ≤ index)%nat →
          length (CreateForm.updateOption index value options) = S index)).
Proof.
  split.
  { intros events. split;
      [apply form_has_two_to_ten_rows|apply form_has_no_hole]. }
  intros options index value Hlen. split; [|split; [|split]].
  - exact (fire_keeps_bounds options CreateForm.ClickAdd Hlen).
  - unfold CreateForm.removeOption. case_bool_decide; [done|].
    destruct (decide (index < length options)%nat) as [Hin|Hout].
    + rewrite length_delete by (by apply lookup_lt_is_Some). lia.
    + rewrite delete_out_of_range by lia. lia.
  - apply length_updateOption_row.
  - apply length_updateOption_past_end.
Qed.

Lemma form_has_two_to_ten_options_witness :
  (2 ≤ length (CreateForm.addOption CreateForm.initial_options) ≤ 10)%nat
  ∧ (2 ≤ length (CreateForm.removeOption 1 CreateForm.initial_options) ≤ 10)%nat
  ∧ length (CreateForm.updateOption 1 "No" CreateForm.initial_options)
    = length CreateForm.initial_options.
Proof.
  destruct (proj2 form_has_two_to_ten_options
              CreateForm.initial_options 1%nat "No")
    as (Hadd & Hremove & Hupdate & _); [simpl; lia|].
  split; [exact Hadd|]. split; [exact Hremove|].
  apply Hupdate. simpl. lia.
Defined.

Lemma trim_nonempty_has_text s :
  JS.trim s ≠ "" → string_forall JS.is_space (JS.trim s) = false.
Proof.
  intros Hs. destruct (string_forall JS.is_space (JS.trim s)) eqn:Hall; [|done].
  destruct Hs. unfold JS.trim in *.
  rewrite string_forall_rev, all_space_trim_start in Hall.
  apply trim_start_empty in Hall. by rewrite Hall.
Qed.

Lemma trim_trim_nonempty s : JS.trim s ≠ "" → JS.trim (JS.trim s) ≠ "".
Proof.
  intros Hs Htwice. apply trim_empty in Htwice.
  by rewrite (trim_nonempty_has_text _ Hs) in Htwice.
Qed.

Lemma trim_nonempty s : JS.trim s ≠ "" → s ≠ "".
Proof. by intros Hs ->. Qed.

Lemma validate_options_client i opts :
  Forall (λ o, JS.trim o ≠ "" ∧ (String.length o ≤ 200)%nat) opts →
  validate_options i (JS.Str <$> opts) = None.
Proof.
  intros Hopts. revert i. induction Hopts as [|o opts [Ho Hlen] _ IH]; intros i;
    [done|].
  rewrite fmap_cons. simpl.
  rewrite (bool_decide_eq_false_2 (o = "")) by (by apply trim_nonempty).
  simpl. rewrite bool_decide_eq_false_2.
  - rewrite bool_decide_eq_false_2 by lia. apply IH.
  - destruct (JS.trim o); [done|]. simpl. lia.
Qed.

(** X23.  What the creation form posts, the server accepts: when
    [handleSubmit] posts a question and options taken from the form, the
    question having at most 500 and each option at most 200 code units (the
    [maxlength] of the inputs), [validatePollData] accepts the body, keeps the
    number of options and stores the sanitised texts. *)
Theorem form_submission_passes_validation
    (events : list CreateForm.form_event) (questionInput q : string)
    (opts : list string) :
  CreateForm.handleSubmit questionInput (form_after events)
  = CreateForm.Posted q opts →
  (String.length q ≤ 500)%nat →
  Forall (λ o, (String.length o ≤ 200)%nat) opts →
  validatePollData (JS.field (CreateForm.posted_body q opts) "question")
                   (JS.field (CreateForm.posted_body q opts) "options")
  = PollValid (sanitizeInput (JS.Str q)) (sanitizeInput ∘ JS.Str <$> opts).
Proof.
  unfold CreateForm.handleSubmit. cbn zeta.
  case_bool_decide as Hq; [done|]. case_bool_decide as Hcount; [done|].
  intros [= <- <-] Hqlen Hlens.
  pose proof (form_has_two_to_ten_rows events) as Hrows.
  set (options := form_after events) in *.
  assert (Hfields :
    JS.field (CreateForm.posted_body (JS.trim questionInput)
                (filter (λ opt, JS.trim opt ≠ "") (omap id options))) "question"
    = JS.Str (JS.trim questionInput)
    ∧ JS.field (CreateForm.posted_body (JS.trim questionInput)
                  (filter (λ opt, JS.trim opt ≠ "") (omap id options))) "options"
      = JS.Arr (JS.Str <$> filter (λ opt, JS.trim opt ≠ "") (omap id options))).
  { unfold JS.field, CreateForm.posted_body. split.
    - by rewrite lookup_insert_eq.
    - rewrite lookup_insert_ne by done. by rewrite lookup_singleton_eq. }
  destruct Hfields as [-> ->]. unfold validatePollData.
  cbn [JS.truthy]. rewrite (bool_decide_eq_false_2 _ Hq). cbn [negb orb].
  rewrite bool_decide_eq_false_2.
  2:{ intros Hlen. apply (trim_trim_nonempty _ Hq).
      by destruct (JS.trim (JS.trim questionInput)). }
  rewrite bool_decide_eq_false_2 by lia.
  rewrite length_fmap.
  rewrite bool_decide_eq_false_2 by lia.
  rewrite bool_decide_eq_false_2.
  2:{ pose proof (length_filter (λ opt, JS.trim opt ≠ "") (omap id options)).
      pose proof (length_omap_le id options). lia. }
  rewrite validate_options_client.
  - by rewrite <- list_fmap_compose.
  - apply Forall_forall. intros o Ho. split.
    + by apply list_elem_of_filter in Ho as [? _].
    + by apply (proj1 (Forall_forall _ _) Hlens).
Qed.

Lemma form_submission_passes_validation_witness :
  validatePollData
    (JS.field (CreateForm.posted_body "Tea?" ["Yes"; "No"]) "question")
    (JS.field (CreateForm.posted_body "Tea?" ["Yes"; "No"]) "options")
  = PollValid (sanitizeInput (JS.Str "Tea?"))
              (sanitizeInput ∘ JS.Str <$> ["Yes"; "No"]).
Proof.
  apply (form_submission_passes_validation
           [CreateForm.InputOption 0 "Yes"; CreateForm.ClickAdd;
            CreateForm.InputOption 2 " "; CreateForm.InputOption 1 "No"]
           "  Tea? ").
  - vm_compute. reflexivity.
  - vm_compute. lia.
  - repeat constructor.
Defined.

(** ** The fingerprint hash of the client *)

Lemma to_int32_range z : - 2 ^ 31 ≤ to_int32 z < 2 ^ 31.
Proof.
  unfold to_int32.
  pose proof (Z.mod_pos_bound (z + 2 ^ 31) (2 ^ 32) eq_refl). lia.
Qed.

Lemma to_int32_congruent z : ∃ k, to_int32 z = z + 2 ^ 32 * k.
Proof.
  unfold to_int32. exists (- ((z + 2 ^ 31) / 2 ^ 32)).
  rewrite Z.mod_eq by done. lia.
Qed.

Lemma to_int32_eq a b k : a = b + 2 ^ 32 * k → to_int32 a = to_int32 b.
Proof.
  intros ->. unfold to_int32. f_equal.
  replace (b + 2 ^ 32 * k + 2 ^ 31) with (b + 2 ^ 31 + k * 2 ^ 32) by lia.
  apply Z.mod_add. done.
Qed.

Lemma hash_step_polynomial hash c :
  hash_step hash c = to_int32 (31 * hash + Z.of_nat (nat_of_ascii c)).
Proof.
  unfold hash_step. cbn zeta. rewrite Z.land_diag, Z.shiftl_mul_pow2 by done.
  destruct (to_int32_congruent hash) as [k1 ->].
  destruct (to_int32_congruent ((hash + 2 ^ 32 * k1) * 2 ^ 5)) as [k2 ->].
  apply (to_int32_eq _ _ (k1 * 2 ^ 5 + k2)). lia.
Qed.

Lemma polynomial_congruent a k s :
  ∃ k', polynomial (a + 2 ^ 32 * k) s = polynomial a s + 2 ^ 32 * k'.
Proof.
  revert a k. induction s as [|c s IH]; intros a k; simpl.
  - by exists k.
  - destruct (IH (31 * a + Z.of_nat (nat_of_ascii c)) (31 * k)) as [k' Hk'].
    exists k'. rewrite <- Hk'. f_equal. lia.
Qed.

Lemma to_int32_id z : - 2 ^ 31 ≤ z < 2 ^ 31 → to_int32 z = z.
Proof. intros Hz. unfold to_int32. rewrite Z.mod_small; lia. Qed.

Lemma hash_from_polynomial hash s :
  - 2 ^ 31 ≤ hash < 2 ^ 31 →
  hash_from hash s = to_int32 (polynomial hash s).
Proof.
  revert hash. induction s as [|c s IH]; intros hash Hrange; simpl.
  - by rewrite to_int32_id.
  - rewrite IH, hash_step_polynomial by (unfold hash_step; cbn zeta;
      rewrite Z.land_diag; apply to_int32_range).
    destruct (to_int32_congruent (31 * hash + Z.of_nat (nat_of_ascii c)))
      as [k ->].
    destruct (polynomial_congruent
                (31 * hash + Z.of_nat (nat_of_ascii c)) k s) as [k' ->].
    by apply (to_int32_eq _ _ k').
Qed.

(** X24.  The loop of [generateFingerprint] computes the polynomial hash of
    its string: the signed 32-bit integer congruent modulo 2^32 to the sum of
    the code units weighted by falling powers of 31.  The result is 0 for the
    empty string and always lies between -2^31 and 2^31 - 1. *)
Theorem fingerprint_hash_is_polynomial (fingerprintString : string) :
  fingerprint_hash fingerprintString
  = to_int32 (polynomial 0 fingerprintString)
  ∧ - 2 ^ 31 ≤ fingerprint_hash fingerprintString < 2 ^ 31
  ∧ fingerprint_hash "" = 0.
Proof.
  unfold fingerprint_hash. rewrite hash_from_polynomial by done.
  split_and!; [done|apply to_int32_range..|done].
Qed.
